(** * apkmirror-downloader: the link-resolution pipeline of [src/main.ts]

  A shallow embedding of the TypeScript program: JavaScript strings and
  nullable values, a DOM tree with the CSS selectors the program uses,
  the thrown [Error]s as a result type, console output and I/O calls as
  an event trace, and the functions of [main.ts] under their own names.
  The theorems at the end settle the statements of the specification. *)

From Stdlib Require Import List String Ascii Bool Arith Lia Sorted.
From Stdlib Require Import DecimalString.
Import ListNotations.
Open Scope list_scope.
Open Scope string_scope.

(* ================================================================== *)
(** ** JavaScript strings *)
(* ================================================================== *)

Module JsString.

(** [String.prototype.toLowerCase] as it acts on ASCII text: the letters
    A to Z are folded, every other byte is left alone.  On a string whose
    characters are all ASCII this is the JavaScript function.  On other
    text it is still exact for the test "includes alpha / beta / bundle",
    because those needles consist of ASCII letters none of which is the
    lower case of a non-ASCII character; a statement about an arbitrary
    needle carries the hypothesis that the text is ASCII ([is_ascii]). *)
Definition lower_ascii (c : ascii) : ascii :=
  let n := nat_of_ascii c in
  if ((65 <=? n) && (n <=? 90))%nat then ascii_of_nat (n + 32) else c.

Fixpoint toLowerCase (s : string) : string :=
  match s with
  | EmptyString => EmptyString
  | String c s' => String (lower_ascii c) (toLowerCase s')
  end.

(** [s.startsWith(p)] *)
Fixpoint startsWith (s p : string) {struct p} : bool :=
  match p with
  | EmptyString => true
  | String a p' =>
      match s with
      | EmptyString => false
      | String b s' => Ascii.eqb a b && startsWith s' p'
      end
  end.

(** [s.includes(sub)]: [sub] occurs in [s] at some position. *)
Fixpoint includes (s sub : string) : bool :=
  startsWith s sub ||
  match s with
  | EmptyString => false
  | String _ s' => includes s' sub
  end.

(** A character of the class [[\d.]]. *)
Definition is_digit_or_dot (c : ascii) : bool :=
  let n := nat_of_ascii c in
  ((n =? 46) || ((48 <=? n) && (n <=? 57)))%nat.

(** The greedy [+]: the longest prefix made of class characters. *)
Fixpoint take_run (s : string) : string :=
  match s with
  | EmptyString => EmptyString
  | String c s' =>
      if is_digit_or_dot c then String c (take_run s') else EmptyString
  end.

(** [s.match(/[\d.]+/)?.[0]]: the regular expression has no [g] flag, so
    the engine tries each start position from the left and answers with
    the first position where the class matches, extended greedily.
    [None] stands for [undefined] (no match). *)
Fixpoint match_digits_dots (s : string) : option string :=
  match s with
  | EmptyString => None
  | String c s' =>
      if is_digit_or_dot c then Some (take_run s) else match_digits_dots s'
  end.

(** [v || dflt] on a possibly undefined string: the empty string is
    falsy as well. *)
Definition or_default (v : option string) (dflt : string) : string :=
  match v with
  | Some EmptyString => dflt
  | Some s => s
  | None => dflt
  end.

(** Truthiness of a string, as in [if (arch)] and [!name]. *)
Definition truthy (s : string) : bool :=
  match s with EmptyString => false | _ => true end.

Fixpoint all_chars (p : ascii -> bool) (s : string) : bool :=
  match s with
  | EmptyString => true
  | String c s' => p c && all_chars p s'
  end.

Definition no_char (p : ascii -> bool) (s : string) : bool :=
  all_chars (fun c => negb (p c)) s.

(** Nothing of the class follows immediately: the end of the text or a
    character outside the class. *)
Definition run_ends (post : string) : bool :=
  match post with
  | EmptyString => true
  | String c _ => negb (is_digit_or_dot c)
  end.

(** [needle] occurs in [text] when letter case is ignored on both
    sides. *)
Definition contains_ci (text needle : string) : Prop :=
  exists pre mid post,
    text = pre ++ mid ++ post /\ toLowerCase mid = toLowerCase needle.

(** Every maximal run of class characters of [s], from left to right;
    [cur] is the run being read, reversed. *)
Fixpoint runs_from (cur : list ascii) (s : string) : list string :=
  let flush :=
    match cur with
    | [] => []
    | _ => [string_of_list_ascii (rev cur)]
    end in
  match s with
  | EmptyString => flush
  | String c s' =>
      if is_digit_or_dot c then runs_from (c :: cur) s'
      else (flush ++ runs_from [] s')%list
  end.

Definition runs (s : string) : list string := runs_from [] s.

(** The specification's wording, "the longest run of digits and dots":
    the longest of the maximal runs, the leftmost one among equals. *)
Definition longest_run (s : string) : option string :=
  fold_left
    (fun best r =>
       match best with
       | None => Some r
       | Some b =>
           if (String.length b <? String.length r)%nat then Some r else best
       end)
    (runs s) None.

End JsString.

(* ================================================================== *)
(** ** Nullable JavaScript values and loose equality *)
(* ================================================================== *)

Module JsValue.

(** The values a [string | null | undefined] expression can take. *)
Inductive t : Type :=
| Undefined
| Null
| Str (s : string).

(** [a == b] restricted to these values: [null] and [undefined] are
    equal to each other and to nothing else, strings compare by
    content. *)
Definition loose_eq (a b : t) : bool :=
  match a, b with
  | Undefined, Undefined | Undefined, Null
  | Null, Undefined | Null, Null => true
  | Str x, Str y => String.eqb x y
  | _, _ => false
  end.

(** A value that is a string or [undefined] (optional chaining). *)
Definition of_optional (o : option string) : t :=
  match o with Some s => Str s | None => Undefined end.

(** A value that is a string or [null] ([Headers.get]). *)
Definition of_nullable (o : option string) : t :=
  match o with Some s => Str s | None => Null end.

End JsValue.

(* ================================================================== *)
(** ** The DOM: documents, element references, CSS selectors *)
(* ================================================================== *)

Module Dom.

(** A node is a text node or an element.  [tag] is the lower-case local
    name, [classes] the tokens of the [class] attribute, [id] the [id]
    attribute (empty when absent).  [href] is the value of the [href]
    IDL property, which is what the program reads from anchors; it is
    empty for an element without the attribute. *)
#[warnings="-register-all"]
Inductive Node : Type :=
| Text (data : string)
| Elem (tag : string) (classes : list string) (id : string)
       (href : string) (childNodes : list Node).

(** An element reference is the path of child-node indices leading to it
    from the document element.  Two references are the same object
    exactly when the paths are equal. *)
Definition Ref : Type := list nat.

(** A parsed document: the tree under its document element. *)
Definition Document : Type := Node.

Definition is_element (n : Node) : bool :=
  match n with Elem _ _ _ _ _ => true | Text _ => false end.

Definition childNodes_of (n : Node) : list Node :=
  match n with Elem _ _ _ _ ks => ks | Text _ => [] end.

Fixpoint nodeAt (n : Node) (p : Ref) : option Node :=
  match p with
  | [] => Some n
  | i :: p' =>
      match nth_error (childNodes_of n) i with
      | Some k => nodeAt k p'
      | None => None
      end
  end.

(** [node.textContent]: the text of all descendants, in tree order. *)
Fixpoint textContent (n : Node) : string :=
  match n with
  | Text d => d
  | Elem _ _ _ _ ks => String.concat "" (map textContent ks)
  end.

Definition textContentAt (doc : Document) (r : Ref) : string :=
  match nodeAt doc r with Some n => textContent n | None => "" end.

(** [anchor.href]. *)
Definition hrefAt (doc : Document) (r : Ref) : string :=
  match nodeAt doc r with
  | Some (Elem _ _ _ h _) => h
  | _ => ""
  end.

(** [el.parentElement]: [None] is [null]; the document element has no
    parent element. *)
Definition parentElement (r : Ref) : option Ref :=
  match r with
  | [] => None
  | _ => Some (removelast r)
  end.

(** The indices of the child nodes that are elements. *)
Fixpoint element_indices (i : nat) (ks : list Node) : list nat :=
  match ks with
  | [] => []
  | k :: ks' =>
      if is_element k then i :: element_indices (S i) ks'
      else element_indices (S i) ks'
  end.

(** [el.children]: the element children, in order. *)
Definition children (doc : Document) (r : Ref) : list Ref :=
  match nodeAt doc r with
  | Some n =>
      map (fun i => (r ++ [i])%list) (element_indices 0 (childNodes_of n))
  | None => []
  end.

(** What a selector can see of one element. *)
Record Info : Type := mkInfo {
  i_ref : Ref;
  i_tag : string;
  i_classes : list string;
  i_id : string;
  i_last_child : bool   (* no element sibling follows *)
}.

(** An element together with its ancestors, nearest first. *)
Record Located : Type := mkLocated {
  l_self : Info;
  l_ancestors : list Info
}.

(** All elements of the tree in document order (a parent before its
    children, siblings left to right), each with its ancestor chain. *)
Fixpoint walk (anc : list Info) (r : Ref) (last : bool) (n : Node)
  : list Located :=
  match n with
  | Text _ => []
  | Elem tag cls id _ ks =>
      let me := mkInfo r tag cls id last in
      mkLocated me anc ::
      (fix go (i : nat) (ks : list Node) : list Located :=
         match ks with
         | [] => []
         | k :: ks' =>
             (walk (me :: anc) (r ++ [i]) (negb (existsb is_element ks')) k
              ++ go (S i) ks')%list
         end) 0 ks
  end.

Definition elements (doc : Document) : list Located := walk [] [] true doc.

(** A compound selector: an optional type selector, class selectors, an
    optional id selector and the pseudo-classes [:scope] and
    [:last-child]. *)
Record Compound : Type := mkCompound {
  c_tag : option string;
  c_classes : list string;
  c_id : option string;
  c_scope : bool;
  c_last_child : bool
}.

Inductive Combinator : Type :=
| Descendant   (* whitespace *)
| Child.       (* > *)

(** A complex selector, read from the right: the compound the subject
    must match, then the combinators and compounds to its left. *)
Record Selector : Type := mkSelector {
  s_subject : Compound;
  s_left : list (Combinator * Compound)
}.

Definition ref_eqb (a b : Ref) : bool :=
  if list_eq_dec Nat.eq_dec a b then true else false.

Definition has_class (cls : list string) (c : string) : bool :=
  existsb (String.eqb c) cls.

Definition matches_compound (scope : Ref) (c : Compound) (i : Info) : bool :=
  match c_tag c with Some t => String.eqb t (i_tag i) | None => true end
  && forallb (has_class (i_classes i)) (c_classes c)
  && match c_id c with Some d => String.eqb d (i_id i) | None => true end
  && (if c_scope c then ref_eqb (i_ref i) scope else true)
  && (if c_last_child c then i_last_child i else true).

(** Matching of the left part against the ancestors of the element
    already matched: [>] looks at the parent only, whitespace tries every
    ancestor. *)
Fixpoint matches_left (scope : Ref) (left : list (Combinator * Compound))
  (anc : list Info) : bool :=
  match left with
  | [] => true
  | (Child, c) :: left' =>
      match anc with
      | [] => false
      | a :: up => matches_compound scope c a && matches_left scope left' up
      end
  | (Descendant, c) :: left' =>
      (fix any (anc : list Info) : bool :=
         match anc with
         | [] => false
         | a :: up =>
             (matches_compound scope c a && matches_left scope left' up)
             || any up
         end) anc
  end.

Definition matches (scope : Ref) (s : Selector) (l : Located) : bool :=
  matches_compound scope (s_subject s) (l_self l)
  && matches_left scope (s_left s) (l_ancestors l).

(** [a] is a proper prefix of [b]: the element at [b] is a descendant of
    the element at [a]. *)
Fixpoint is_descendant (a b : Ref) : bool :=
  match a, b with
  | [], [] => false
  | [], _ :: _ => true
  | _ :: _, [] => false
  | x :: a', y :: b' => (x =? y)%nat && is_descendant a' b'
  end.

(** [el.querySelectorAll(sel)]: the descendants of [el] that match, in
    document order, with [:scope] standing for [el]. *)
Definition querySelectorAll (doc : Document) (el : Ref) (s : Selector)
  : list Ref :=
  map (fun l => i_ref (l_self l))
      (filter (fun l => is_descendant el (i_ref (l_self l)) && matches el s l)
              (elements doc)).

(** [el.querySelector(sel)]: the first match or [null]. *)
Definition querySelector (doc : Document) (el : Ref) (s : Selector)
  : option Ref :=
  hd_error (querySelectorAll doc el s).

(** [document.querySelector(sel)]: every element of the document is a
    candidate and [:scope] is the document element. *)
Definition documentQuerySelector (doc : Document) (s : Selector)
  : option Ref :=
  hd_error
    (map (fun l => i_ref (l_self l)) (filter (matches [] s) (elements doc))).

(** [document.body]: the first [body] or [frameset] child of the [html]
    document element, [null] otherwise. *)
Definition body (doc : Document) : option Ref :=
  match doc with
  | Elem "html" _ _ _ ks =>
      (fix first (i : nat) (ks : list Node) : option Ref :=
         match ks with
         | [] => None
         | Elem t _ _ _ _ :: ks' =>
             if String.eqb t "body" || String.eqb t "frameset"
             then Some [i] else first (S i) ks'
         | Text _ :: ks' => first (S i) ks'
         end) 0 ks
  | _ => None
  end.

(** Selector syntax. *)
Definition cls (c : string) : Compound := mkCompound None [c] None false false.
Definition tag_ (t : string) : Compound := mkCompound (Some t) [] None false false.
Definition tag_cls (t c : string) : Compound :=
  mkCompound (Some t) [c] None false false.
Definition id_ (d : string) : Compound := mkCompound None [] (Some d) false false.
Definition scope_ : Compound := mkCompound None [] None true false.
Definition last_child_ : Compound := mkCompound None [] None false true.

(** [".listWidget"] *)
Definition sel_listWidget : Selector := mkSelector (cls "listWidget") [].
(** [".appRow .appRowTitle > a"] *)
Definition sel_version_anchor : Selector :=
  mkSelector (tag_ "a") [(Child, cls "appRowTitle"); (Descendant, cls "appRow")].
(** [":scope > :last-child a"] *)
Definition sel_last_child_anchor : Selector :=
  mkSelector (tag_ "a") [(Descendant, last_child_); (Child, scope_)].
(** [".apkm-badge"] *)
Definition sel_badge : Selector := mkSelector (cls "apkm-badge") [].
(** [":scope > .widgetHeader"] *)
Definition sel_widgetHeader : Selector :=
  mkSelector (cls "widgetHeader") [(Child, scope_)].
(** [".card-with-tabs .tab-content #file a.downloadButton"] *)
Definition sel_downloadButton : Selector :=
  mkSelector (tag_cls "a" "downloadButton")
    [(Descendant, id_ "file"); (Descendant, cls "tab-content");
     (Descendant, cls "card-with-tabs")].
(** [".card-with-tabs a"] *)
Definition sel_card_anchor : Selector :=
  mkSelector (tag_ "a") [(Descendant, cls "card-with-tabs")].

(** *** What the queries mean in terms of the tree *)

Definition loc_ref (l : Located) : Ref := i_ref (l_self l).

(** The loop of [walk] over the child nodes, counted from [i]. *)
Fixpoint walk_list (anc : list Info) (r : Ref) (i : nat) (ks : list Node)
  : list Located :=
  match ks with
  | [] => []
  | k :: ks' =>
      (walk anc (r ++ [i]) (negb (existsb is_element ks')) k
       ++ walk_list anc r (S i) ks')%list
  end.

(** Document order on references: an element comes before its
    descendants, and the subtree of a sibling before the subtrees of the
    siblings after it. *)
Fixpoint doc_before (a b : Ref) : Prop :=
  match a, b with
  | [], [] => False
  | [], _ :: _ => True
  | _ :: _, [] => False
  | x :: a', y :: b' => (x < y)%nat \/ (x = y /\ doc_before a' b')
  end.

(** The references of the ancestors of an element, nearest first. *)
Inductive chain_for : Ref -> list Ref -> Prop :=
| chain_root : chain_for [] []
| chain_child (r : Ref) (i : nat) (anc : list Ref) :
    chain_for r anc -> chain_for (r ++ [i])%list (r :: anc).

(** [i] describes the element found at its reference, and says that it is
    a last child exactly when no element follows it under its parent. *)
Definition info_of (doc : Document) (i : Info) : Prop :=
  (exists h ks,
      nodeAt doc (i_ref i)
      = Some (Elem (i_tag i) (i_classes i) (i_id i) h ks))
  /\ (forall p j n,
         i_ref i = (p ++ [j])%list ->
         nodeAt doc p = Some n ->
         i_last_child i
         = negb (existsb is_element (skipn (S j) (childNodes_of n)))).

(** [l] is an element of the document with its true ancestors. *)
Definition located_in (doc : Document) (l : Located) : Prop :=
  info_of doc (l_self l)
  /\ chain_for (loc_ref l) (map i_ref (l_ancestors l))
  /\ Forall (info_of doc) (l_ancestors l).

Fixpoint last_error {A : Type} (l : list A) : option A :=
  match l with
  | [] => None
  | x :: l' =>
      match l' with
      | [] => Some x
      | _ :: _ => last_error l'
      end
  end.

(** [el.lastElementChild] *)
Definition lastElementChild (doc : Document) (r : Ref) : option Ref :=
  last_error (children doc r).

(** The element at [r] is an [a] element. *)
Definition is_anchor (doc : Document) (r : Ref) : bool :=
  match nodeAt doc r with
  | Some (Elem t _ _ _ _) => String.eqb "a" t
  | _ => false
  end.

(** [m] is the first link, in document order, inside the last child of
    the container [c]. *)
Definition first_anchor_in_last_child (doc : Document) (c m : Ref) : Prop :=
  (exists L, lastElementChild doc c = Some L /\
             is_descendant L m = true /\ is_anchor doc m = true)
  /\ forall L r, lastElementChild doc c = Some L ->
                 is_descendant L r = true -> is_anchor doc r = true ->
                 r = m \/ doc_before m r.

(** The last child of the container [c] has no link inside. *)
Definition no_anchor_in_last_child (doc : Document) (c : Ref) : Prop :=
  forall L r, lastElementChild doc c = Some L ->
              is_descendant L r = true -> is_anchor doc r = false.

End Dom.

(* ================================================================== *)
(** ** Exceptions, console output and I/O *)
(* ================================================================== *)

(** Every [throw] of the program raises a plain [Error] with a message;
    failures of the collaborators (network, file system, URL parsing) are
    errors with a message of their own. *)
Inductive Error : Type :=
| JsError (message : string).

Inductive result (A : Type) : Type :=
| Ok (a : A)
| Throw (e : Error).
Arguments Ok {A} a.
Arguments Throw {A} e.

Definition bindR {A B : Type} (m : result A) (k : A -> result B) : result B :=
  match m with
  | Ok a => k a
  | Throw e => Throw e
  end.

Notation "'let*' x ':=' m 'in' k" := (bindR m (fun x => k))
  (at level 10, x name, m at level 100, k at level 200).

(** The names the specification gives to the failures, each bound to the
    message the program throws there. *)
Definition SelectorNotFound : Error :=
  JsError "Couldn't find a matching element for selector".
Definition ContainerNotFound : Error :=
  JsError "Couldn't find container with matching heading".
Definition NoStableVersionFound : Error :=
  JsError "Couldn't find anchor element for latest stable APK".
(** [getCustomVersionURL] throws the message of the latest-stable mode. *)
Definition VersionNotFound : Error :=
  JsError "Couldn't find anchor element for latest stable APK".
Definition NoNonBundleLink : Error :=
  JsError "Couldn't find anchor element for normal/non-bundled APK".
Definition NoDownloadPageButton : Error :=
  JsError "Couldn't find anchor element for APK download page".
Definition NoDirectDownloadButton : Error :=
  JsError "Couldn't find anchor element for direct APK download".
Definition ParseError : Error :=
  JsError "An error occurred while trying to parse the page".
Definition UnexpectedContentType : Error :=
  JsError "An error occurred while trying to download the file".
Definition EmptyArgument : Error :=
  JsError "At least one empty argument was passed to this function".

(** What the program does to the outside world, in the order it does it. *)
Inductive Event : Type :=
| ConsoleDebug (line : string)
| ConsoleLog (line : string)
| ConsoleError (line : string)
| HttpGet (url : string)                    (* fetch(url, {headers}) *)
| Mkdir (path : string) (recursive : bool)  (* mkdir(path, {recursive}) *)
| CreateWriteStream (path : string)
| Pipe (path : string).                     (* body.pipe(fileStream) *)

(** A computation: the events it produced and its outcome. *)
Definition M (A : Type) : Type := (list Event * result A)%type.

Definition ret {A : Type} (a : A) : M A := ([], Ok a).
Definition throw {A : Type} (e : Error) : M A := ([], Throw e).
Definition emit (e : Event) : M unit := ([e], Ok tt).
Definition lift {A : Type} (r : result A) : M A := ([], r).

Definition bind {A B : Type} (m : M A) (k : A -> M B) : M B :=
  match m with
  | (t, Ok a) => let (t', r) := k a in ((t ++ t')%list, r)
  | (t, Throw e) => (t, Throw e)
  end.

Notation "x <- m ;; k" := (bind m (fun x => k))
  (at level 61, m at next level, right associativity).
Notation "m ;; k" := (bind m (fun _ => k))
  (at level 61, right associativity).

Definition trace {A : Type} (m : M A) : list Event := fst m.
Definition outcome {A : Type} (m : M A) : result A := snd m.

(** An HTTP response as far as the program looks at it. *)
Record Response : Type := mkResponse {
  resp_text : string;                  (* await response.text() *)
  resp_contentType : option string;    (* headers.get("Content-Type") *)
  resp_body : option string            (* response.body, None is null *)
}.

(** The collaborators of the pipeline. *)
Record Env : Type := mkEnv {
  DEBUG_ENABLED : bool;
  (** [new URL(path, base).href] *)
  new_URL : string -> string -> result string;
  (** [await fetch(href, {headers})] *)
  fetch : string -> result Response;
  (** [new JSDOM(text).window.document] *)
  JSDOM : string -> option Dom.Document;
  (** [await mkdir(path, {recursive: true})] *)
  mkdir : string -> result unit
}.

(** [console.debug] is replaced by a function that does nothing unless
    debugging is enabled. *)
Definition console_debug (env : Env) (line : string) : M unit :=
  if DEBUG_ENABLED env then emit (ConsoleDebug line) else ret tt.
Definition console_log (line : string) : M unit := emit (ConsoleLog line).
Definition console_error (line : string) : M unit := emit (ConsoleError line).

Definition string_of_nat (n : nat) : string :=
  NilEmpty.string_of_uint (Nat.to_uint n).

(** [Array.prototype.find] with a callback that may throw: the exception
    leaves the search at the element that raised it. *)
Fixpoint findM {A : Type} (f : A -> result bool) (l : list A)
  : result (option A) :=
  match l with
  | [] => Ok None
  | x :: l' =>
      match f x with
      | Throw e => Throw e
      | Ok true => Ok (Some x)
      | Ok false => findM f l'
      end
  end.

(** [forEach] with a callback that writes to the console. *)
Fixpoint forEachM {A : Type} (f : A -> nat -> M unit) (index : nat)
  (l : list A) : M unit :=
  match l with
  | [] => ret tt
  | x :: l' => f x index ;; forEachM f (S index) l'
  end.

(* ================================================================== *)
(** ** The functions of [main.ts] *)
(* ================================================================== *)

Import Dom.
Open Scope string_scope.

Definition baseURL : string := "https://apkmirror.com".

Definition apk_mime : string := "application/vnd.android.package-archive".

(** [queryAll(element, selectors)] *)
Definition queryAll (doc : Document) (element : option Ref)
  (selectors : Selector) : result (list Ref) :=
  let list := option_map (fun el => querySelectorAll doc el selectors) element in
  match list with
  | None => Throw SelectorNotFound
  | Some l => if (List.length l =? 0)%nat then Throw SelectorNotFound else Ok l
  end.

(** The callback of [findContainerWithHeading]: the text of the first
    [.widgetHeader] child includes [text]; [undefined] is falsy. *)
Definition heading_includes (doc : Document) (text : string) (x : Ref) : bool :=
  match querySelector doc x sel_widgetHeader with
  | Some h => JsString.includes (textContentAt doc h) text
  | None => false
  end.

(** [findContainerWithHeading(list, text)] *)
Definition findContainerWithHeading (doc : Document) (list : list Ref)
  (text : string) : result Ref :=
  match find (heading_includes doc text) list with
  | None => Throw ContainerNotFound
  | Some r => Ok r
  end.

(** The callback of the [find] in [getLatestStableURL]. *)
Definition is_stable (doc : Document) (x : Ref) : bool :=
  negb (JsString.includes (JsString.toLowerCase (textContentAt doc x)) "alpha"
        || JsString.includes (JsString.toLowerCase (textContentAt doc x)) "beta").

(** The callback of the [find] in [getCustomVersionURL]: only the anchor
    text is lower-cased. *)
Definition text_includes_version (doc : Document) (version : string)
  (x : Ref) : bool :=
  JsString.includes (JsString.toLowerCase (textContentAt doc x)) version.

(** The structural filter of [getNonBundleURL]:
    [x.parentElement?.children.length] is a number greater than 1. *)
Definition has_sibling (doc : Document) (x : Ref) : bool :=
  let length :=
    option_map (fun p => List.length (children doc p)) (parentElement x) in
  match length with
  | Some n => (1 <? n)%nat
  | None => false
  end.

(** The architecture filter of [getNonBundleURL].  The [arch] bound
    inside the block hides the parameter, as the [const] does. *)
Definition arch_filter (doc : Document) (arch : string) (x : Ref) : bool :=
  if JsString.truthy arch then
    let mainEl := match parentElement x with
                  | Some p => parentElement p
                  | None => None
                  end in
    let archEl := match mainEl with
                  | Some m => nth_error (children doc m) 1
                  | None => None
                  end in
    let arch := JsValue.of_optional (option_map (textContentAt doc) archEl) in
    JsValue.loose_eq arch arch || JsValue.loose_eq arch (JsValue.Str "universal")
  else true.

(** The callback of the [find] in [getNonBundleURL]; [queryAll] throws
    when the parent has no badge. *)
Definition is_not_bundle (doc : Document) (x : Ref) : result bool :=
  let* badges := queryAll doc (parentElement x) sel_badge in
  let isBundle :=
    existsb (fun b => JsString.includes
                        (JsString.toLowerCase (textContentAt doc b)) "bundle")
            badges in
  Ok (negb isBundle).

(** [getNonBundleURL(document, arch)]: the two filters run over the whole
    list before the search starts; the filter on [null] keeps every entry
    and is left out. *)
Definition getNonBundleURL (doc : Document) (arch : string) : result string :=
  let* containers := queryAll doc (body doc) sel_listWidget in
  let* downloadContainer := findContainerWithHeading doc containers "Download" in
  let* downloads := queryAll doc (Some downloadContainer) sel_last_child_anchor in
  let* nonBundleDownload :=
    findM (is_not_bundle doc)
          (filter (arch_filter doc arch) (filter (has_sibling doc) downloads)) in
  match nonBundleDownload with
  | None => Throw NoNonBundleLink
  | Some a => Ok (hrefAt doc a)
  end.

(** [getDownloadPageURL(document)]; called with [arch] as well, which it
    ignores. *)
Definition getDownloadPageURL (doc : Document) (_ : string) : result string :=
  match documentQuerySelector doc sel_downloadButton with
  | None => Throw NoDownloadPageButton
  | Some b => Ok (hrefAt doc b)
  end.

(** [getDirectDownloadURL(document)] *)
Definition getDirectDownloadURL (doc : Document) (_ : string) : result string :=
  match documentQuerySelector doc sel_card_anchor with
  | None => Throw NoDirectDownloadButton
  | Some b => Ok (hrefAt doc b)
  end.

Definition downloadFunctions : list (Document -> string -> result string) :=
  [getNonBundleURL; getDownloadPageURL; getDirectDownloadURL].

(** The diagnostic both resolvers print before they give up. *)
Definition report_moreUploads (doc : Document) (versionContainer : Ref)
  : M unit :=
  let moreUploads := querySelector doc versionContainer sel_last_child_anchor in
  match moreUploads with
  | Some m =>
      console_error
        ("Here you can manually browse the latest APKs: " ++ hrefAt doc m)
  | None => ret tt
  end.

Section Pipeline.

Variable env : Env.

(** The [forEach] at the head of [getLatestStableURL]. *)
Definition debug_anchor (doc : Document) (anchorElement : Ref) (index : nat)
  : M unit :=
  console_debug env ("Anchor Element " ++ string_of_nat (index + 1) ++ ":") ;;
  console_debug env ("Href: " ++ hrefAt doc anchorElement) ;;
  console_debug env ("Text Content: " ++ textContentAt doc anchorElement) ;;
  console_debug env "-----------------------------".

(** [getLatestStableURL(document)].  The [filter((x) => x != null)] keeps
    every entry of a node list and is left out. *)
Definition getLatestStableURL (doc : Document) : M (string * string) :=
  containers <- lift (queryAll doc (body doc) sel_listWidget) ;;
  versionContainer <-
    lift (findContainerWithHeading doc containers "All versions") ;;
  versions <- lift (queryAll doc (Some versionContainer) sel_version_anchor) ;;
  forEachM (debug_anchor doc) 0 versions ;;
  let latestStable := find (is_stable doc) versions in
  match latestStable with
  | None =>
      report_moreUploads doc versionContainer ;;
      throw NoStableVersionFound
  | Some a =>
      let version :=
        JsString.or_default
          (JsString.match_digits_dots (textContentAt doc a)) "unknown" in
      console_debug env ("Latest Stable Version: " ++ version) ;;
      ret (hrefAt doc a, version)
  end.

(** [getCustomVersionURL(version, document)]; the filter on [null] is
    left out as above. *)
Definition getCustomVersionURL (version : string) (doc : Document) : M string :=
  containers <- lift (queryAll doc (body doc) sel_listWidget) ;;
  versionContainer <-
    lift (findContainerWithHeading doc containers "All versions") ;;
  versions <- lift (queryAll doc (Some versionContainer) sel_version_anchor) ;;
  let customVersion := find (text_includes_version doc version) versions in
  match customVersion with
  | None =>
      report_moreUploads doc versionContainer ;;
      throw VersionNotFound
  | Some a => ret (hrefAt doc a)
  end.

(** [getDocumentFromURL(url)] *)
Definition getDocumentFromURL (url : string) : M Document :=
  emit (HttpGet url) ;;
  response <- lift (fetch env url) ;;
  let text := resp_text response in
  match JSDOM env text with
  | None => throw ParseError
  | Some root => ret root
  end.

(** [download(name, url, arch, version)].  The request is issued first,
    the directory is made while it is under way, then the response is
    awaited. *)
Definition download (name url arch version : string) : M unit :=
  emit (HttpGet url) ;;
  let path := "apps/" ++ name ++ "_" ++ arch ++ "_" ++ version ++ ".apk" in
  emit (Mkdir "apps" true) ;;
  lift (mkdir env "apps") ;;
  response <- lift (fetch env url) ;;
  let contentType := resp_contentType response in
  let isAPK :=
    JsValue.loose_eq (JsValue.of_nullable contentType) (JsValue.Str apk_mime) in
  let body := resp_body response in
  match body with
  | Some _ =>
      if isAPK then
        emit (CreateWriteStream path) ;;
        emit (Pipe path)
      else throw UnexpectedContentType
  | None => throw UnexpectedContentType
  end.

(** One turn of the loop over [downloadFunctions]. *)
Definition resolve_stage (arch urlPath : string)
  (dlFunc : Document -> string -> result string) : M string :=
  url <- lift (new_URL env urlPath baseURL) ;;
  document <- getDocumentFromURL url ;;
  lift (dlFunc document arch).

Fixpoint resolve_chain (arch urlPath : string)
  (fs : list (Document -> string -> result string)) : M string :=
  match fs with
  | [] => ret urlPath
  | dlFunc :: fs' =>
      urlPath' <- resolve_stage arch urlPath dlFunc ;;
      resolve_chain arch urlPath' fs'
  end.

(** [if (version)]: a string that is present and not empty. *)
Definition version_given (version : option string) : option string :=
  match version with
  | Some v => if JsString.truthy v then Some v else None
  | None => None
  end.

(** [downloadApp(name, urlPath, arch, version)] *)
Definition downloadApp (name urlPath arch : string) (version : option string)
  : M unit :=
  if negb (JsString.truthy name) || negb (JsString.truthy urlPath)
  then throw EmptyArgument
  else
    url <- lift (new_URL env urlPath baseURL) ;;
    resolved <-
      match version_given version with
      | Some v =>
          document <- getDocumentFromURL url ;;
          urlPath <- getCustomVersionURL v document ;;
          ret (urlPath, v)
      | None =>
          document <- getDocumentFromURL url ;;
          getLatestStableURL document
      end ;;
    let urlPath := fst resolved in
    let version := snd resolved in
    shown <- lift (new_URL env urlPath baseURL) ;;
    console_log ("Fetched Version URL: " ++ shown) ;;
    urlPath <- resolve_chain arch urlPath downloadFunctions ;;
    shown <- lift (new_URL env urlPath baseURL) ;;
    console_log ("APK Download URL: " ++ shown) ;;
    target <- lift (new_URL env urlPath baseURL) ;;
    download name target arch version.

End Pipeline.

(* ================================================================== *)
(** ** Vocabulary of the specification *)
(* ================================================================== *)

(** The text of a pre-release: it contains "alpha" or "beta" in any
    letter case. *)
Definition prerelease_text (text : string) : Prop :=
  JsString.contains_ci text "alpha" \/ JsString.contains_ci text "beta".

(** The container headed "All versions", as both resolvers look it up. *)
Definition versionContainer (doc : Document) : result Ref :=
  let* containers := queryAll doc (body doc) sel_listWidget in
  findContainerWithHeading doc containers "All versions".

(** The version anchors of a listing document, in document order; none
    when the document has no versions container. *)
Definition version_anchors (doc : Document) : list Ref :=
  match versionContainer doc with
  | Ok c => querySelectorAll doc c sel_version_anchor
  | Throw _ => []
  end.

(** The label [getLatestStableURL] derives from the text of an anchor. *)
Definition version_label (text : string) : string :=
  JsString.or_default (JsString.match_digits_dots text) "unknown".

(** The line printed for the link to further uploads. *)
Definition moreUploads_line (href : string) : Event :=
  ConsoleError ("Here you can manually browse the latest APKs: " ++ href).

(** The console lines of the [forEach] over the version anchors. *)
Definition debug_lines (env : Env) (doc : Document) (versions : list Ref)
  : list Event :=
  trace (forEachM (debug_anchor env doc) 0 versions).

(** The container headed "Download". *)
Definition downloadContainer (doc : Document) : result Ref :=
  let* containers := queryAll doc (body doc) sel_listWidget in
  findContainerWithHeading doc containers "Download".

(** The anchors inside the last child of the download container. *)
Definition download_anchors (doc : Document) : list Ref :=
  match downloadContainer doc with
  | Ok c => querySelectorAll doc c sel_last_child_anchor
  | Throw _ => []
  end.

(** The candidates that pass the structural filter. *)
Definition structural_candidates (doc : Document) : list Ref :=
  filter (has_sibling doc) (download_anchors doc).

(** The badge list of a candidate: the [.apkm-badge] elements under its
    parent. *)
Definition badges (doc : Document) (x : Ref) : list Ref :=
  match parentElement x with
  | Some p => querySelectorAll doc p sel_badge
  | None => []
  end.

(** Some badge of the candidate has "bundle" in its text, in any letter
    case. *)
Definition bundle_badged (doc : Document) (x : Ref) : Prop :=
  exists b, In b (badges doc x) /\
            JsString.contains_ci (textContentAt doc b) "bundle".

(** The output file of [download]. *)
Definition output_path (name arch version : string) : string :=
  "apps/" ++ name ++ "_" ++ arch ++ "_" ++ version ++ ".apk".

(** The call wrote the output file: it opened the write stream. *)
Definition writes_file (path : string) (t : list Event) : Prop :=
  In (CreateWriteStream path) t.

(** The call touched no file at all. *)
Definition no_file_event (t : list Event) : Prop :=
  forall p, ~ In (CreateWriteStream p) t /\ ~ In (Pipe p) t.

(* ================================================================== *)
(** ** Sample pages *)
(* ================================================================== *)

Module Pages.

Definition div (classes : list string) (ks : list Node) : Node :=
  Elem "div" classes "" "" ks.
Definition span (classes : list string) (text : string) : Node :=
  Elem "span" classes "" "" [Text text].
Definition a (href text : string) : Node :=
  Elem "a" [] "" href [Text text].

Definition page (ks : list Node) : Document :=
  Elem "html" [] "" "" [Elem "head" [] "" "" []; Elem "body" [] "" "" ks].

Definition widget (heading : string) (ks : list Node) : Node :=
  div ["listWidget"] (div ["widgetHeader"] [Text heading] :: ks).

(** One row of the version list. *)
Definition version_row (href text : string) : Node :=
  div ["appRow"] [Elem "h5" ["appRowTitle"] "" "" [a href text]].

(** The block that closes the version list. *)
Definition more_uploads (href : string) : Node :=
  div ["table-row"] [a href "See more uploads..."].

(** One row of the variants table: the cell with the link, its badges
    and the upload date, then the architecture cell. *)
Definition variant_row (href text : string) (badges : list string)
  (arch : string) : Node :=
  div ["table-row"]
    [div ["table-cell"]
       ((a href text :: map (span ["apkm-badge"]) badges)
        ++ [span ["dateyear_utc"] "April 1"])%list;
     div ["table-cell"] [Text arch]].

Definition variants (rows : list Node) : Node :=
  widget "Download" [div ["variants-table"] rows].

(** Anchors [2.0.0 beta -> /v2] and [1.9.5 -> /v1]. *)
Definition listing_beta_then_stable : Document :=
  page [widget "Related apps" [version_row "/other" "Other app 3.1"];
        widget "All versions"
          [version_row "/v2" "2.0.0 beta"; version_row "/v1" "1.9.5";
           more_uploads "/uploads"]].

Definition listing_only_prerelease : Document :=
  page [widget "All versions"
          [version_row "/v3" "3.0.0 Alpha"; version_row "/v2" "2.0.0 BETA 2";
           more_uploads "/uploads"]].

(** The same list closed by a bare link instead of a block with a link
    inside. *)
Definition listing_only_prerelease_bare_link : Document :=
  page [widget "All versions"
          [version_row "/v3" "3.0.0 Alpha"; a "/uploads" "See more uploads..."]].

(** A versions container without a single version row. *)
Definition listing_without_anchors : Document :=
  page [widget "All versions" [more_uploads "/uploads"]].

Definition listing_mixed_case : Document :=
  page [widget "All versions"
          [version_row "/rc" "App 4.12-RC"; version_row "/v4" "Version 4.12.3 release";
           more_uploads "/uploads"]].

Definition listing_digit_in_name : Document :=
  page [widget "All versions"
          [version_row "/o" "Microsoft 365 16.0.1"; more_uploads "/uploads"]].

(** First candidate with badge list ["bundle"], second with none. *)
Definition variants_bundle_then_unbadged : Document :=
  page [variants [variant_row "/bundle" "1.9.5" ["bundle"] "arm64-v8a";
                  variant_row "/plain" "1.9.5" [] "arm64-v8a"]].

(** First candidate with badge list ["BUNDLE"], second with ["APK"]. *)
Definition variants_bundle_then_apk : Document :=
  page [variants [variant_row "/bundle" "1.9.5" ["BUNDLE"] "x86";
                  variant_row "/apk" "1.9.5" ["APK"] "x86"]].

Definition env_of (debug : bool) (r : Response) : Env :=
  mkEnv debug (fun path base => Ok (base ++ path)) (fun _ => Ok r)
        (fun _ => Some listing_beta_then_stable) (fun _ => Ok tt).

Definition html_response : Response :=
  mkResponse "<html></html>" (Some "text/html") (Some "<html></html>").
Definition apk_response : Response :=
  mkResponse "PK" (Some apk_mime) (Some "PK").
Definition apk_response_without_body : Response :=
  mkResponse "" (Some apk_mime) None.

End Pages.

(* ================================================================== *)
(** ** Vocabulary for the properties of the remaining code *)
(* ================================================================== *)

(** The element at [r] carries the class [c]. *)
Definition has_class_at (doc : Document) (r : Ref) (c : string) : bool :=
  match nodeAt doc r with
  | Some (Elem _ classes _ _ _) => has_class classes c
  | _ => false
  end.

(** [h] is the first child element of [x] with the class [widgetHeader]. *)
Definition first_header (doc : Document) (x h : Ref) : Prop :=
  In h (children doc x)
  /\ has_class_at doc h "widgetHeader" = true
  /\ forall h', In h' (children doc x) ->
                has_class_at doc h' "widgetHeader" = true ->
                h' = h \/ doc_before h h'.

(** The container [x] is headed [text]: the text of its first header
    child contains [text], letter for letter. *)
Definition headed (doc : Document) (text : string) (x : Ref) : Prop :=
  exists h pre post,
    first_header doc x h /\ textContentAt doc h = pre ++ text ++ post.

(** The lower-cased text of [x] contains [version] as it is written. *)
Definition text_matches_version (doc : Document) (version : string) (x : Ref)
  : Prop :=
  exists pre mid post,
    textContentAt doc x = pre ++ mid ++ post /\
    JsString.toLowerCase mid = version.

(** Every character of [s] is an ASCII character. *)
Definition is_ascii (s : string) : bool :=
  JsString.all_chars (fun c => (nat_of_ascii c <? 128)%nat) s.

(** [v] is the label of [text]: its leftmost maximal run of digits and
    dots, or "unknown" when it has neither a digit nor a dot. *)
Definition label_of (text v : string) : Prop :=
  (exists pre tok post,
      text = pre ++ tok ++ post
      /\ JsString.no_char JsString.is_digit_or_dot pre = true
      /\ JsString.all_chars JsString.is_digit_or_dot tok = true
      /\ tok <> ""
      /\ JsString.run_ends post = true
      /\ v = tok)
  \/ (JsString.no_char JsString.is_digit_or_dot text = true
      /\ v = "unknown").

(** [v] is the label of the latest stable release of the listing found at
    [urlPath]: the page is fetched and parsed, and [v] is the label of the
    first version anchor that is not a pre-release. *)
Definition latest_label (env : Env) (urlPath v : string) : Prop :=
  exists url response doc before x after,
    new_URL env urlPath baseURL = Ok url
    /\ fetch env url = Ok response
    /\ JSDOM env (resp_text response) = Some doc
    /\ version_anchors doc = (before ++ x :: after)%list
    /\ (forall y, In y before -> prerelease_text (textContentAt doc y))
    /\ ~ prerelease_text (textContentAt doc x)
    /\ label_of (textContentAt doc x) v.

(** A version label as [getLatestStableURL] can produce it. *)
Definition label_shape (v : string) : Prop :=
  v = "unknown"
  \/ (v <> "" /\ JsString.all_chars JsString.is_digit_or_dot v = true).

Definition is_debug (e : Event) : bool :=
  match e with ConsoleDebug _ => true | _ => false end.

(** A trace with the lines of [console.debug] taken out. *)
Definition without_debug (t : list Event) : list Event :=
  filter (fun e => negb (is_debug e)) t.

(** The URLs requested, in the order of the requests. *)
Fixpoint requests (t : list Event) : list string :=
  match t with
  | [] => []
  | HttpGet url :: t' => url :: requests t'
  | _ :: t' => requests t'
  end.

(** The events that touch the file system. *)
Definition is_fs (e : Event) : bool :=
  match e with
  | Mkdir _ _ | CreateWriteStream _ | Pipe _ => true
  | _ => false
  end.

Definition no_underscore (s : string) : bool :=
  JsString.no_char (Ascii.eqb "_") s.

(** [m] is [m'] with the debug lines taken out. *)
Definition quiet_of {A : Type} (m m' : M A) : Prop :=
  m = (without_debug (trace m'), outcome m').

(** [m] leaves the file system alone. *)
Definition fs_free {A : Type} (m : M A) : Prop :=
  forall e, In e (trace m) -> is_fs e = false.

(** [m] issues at most [n] requests, and exactly [n] when it succeeds. *)
Definition requests_exactly {A : Type} (n : nat) (m : M A) : Prop :=
  (List.length (requests (trace m)) <= n)%nat
  /\ forall a, outcome m = Ok a -> List.length (requests (trace m)) = n.

(** A step on the way: no file system event, [n] requests. *)
Definition step {A : Type} (n : nat) (m : M A) : Prop :=
  fs_free m /\ requests_exactly n m.

(** The last step: [n] requests, all of them issued before the file
    system is touched for the first time: wherever the trace is cut in
    front of a file system event, the part before the cut holds the [n]
    requests. *)
Definition final {A : Type} (n : nat) (m : M A) : Prop :=
  requests_exactly n m
  /\ forall pre e post,
       trace m = (pre ++ e :: post)%list -> is_fs e = true ->
       List.length (requests pre) = n.

(** [m] opens a write stream only when it succeeds, and only on a path
    that satisfies [P]. *)
Definition writes_only {A : Type} (P : string -> Prop) (m : M A) : Prop :=
  forall p, In (CreateWriteStream p) (trace m) ->
            (exists a, outcome m = Ok a) /\ P p.

Module MorePages.
Import Pages.

(** A container with two header children, the second of which reads
    "All versions". *)
Definition listing_second_header : Document :=
  page [div ["listWidget"]
          [div ["widgetHeader"] [Text "Latest uploads"];
           div ["widgetHeader"] [Text "All versions"];
           version_row "/v1" "1.9.5"]].

(** Every variant is a bundle. *)
Definition variants_only_bundles : Document :=
  page [variants [variant_row "/b1" "1.9.5" ["BUNDLE"] "arm64-v8a";
                  variant_row "/b2" "1.9.5" ["bundle"; "2 S"] "x86"]].

(** The page behind a variant: the tab with the download button. *)
Definition download_page : Document :=
  page [div ["card-with-tabs"]
          [a "/tab" "File";
           div ["tab-content"]
             [Elem "div" [] "file" ""
                [Elem "a" ["downloadButton"] "" "/download/key" [Text "Download APK"]]]]].

(** The page with the direct link. *)
Definition direct_page : Document :=
  page [div ["card-with-tabs"] [a "/direct.apk" "here"]].

(** A site of four pages and the package itself. *)
Definition site (url : string) : result Response :=
  if String.eqb url "https://apkmirror.com/apk/app"
  then Ok (mkResponse "listing" (Some "text/html") (Some "listing"))
  else if String.eqb url "https://apkmirror.com/v1"
  then Ok (mkResponse "variants" (Some "text/html") (Some "variants"))
  else if String.eqb url "https://apkmirror.com/apk"
  then Ok (mkResponse "download" (Some "text/html") (Some "download"))
  else if String.eqb url "https://apkmirror.com/download/key"
  then Ok (mkResponse "direct" (Some "text/html") (Some "direct"))
  else if String.eqb url "https://apkmirror.com/direct.apk"
  then Ok (mkResponse "PK" (Some apk_mime) (Some "PK"))
  else Throw (JsError "request failed").

Definition parse (text : string) : option Document :=
  if String.eqb text "listing" then Some listing_beta_then_stable
  else if String.eqb text "variants" then Some variants_bundle_then_apk
  else if String.eqb text "download" then Some download_page
  else if String.eqb text "direct" then Some direct_page
  else Some (page []).

Definition site_env (debug : bool) : Env :=
  mkEnv debug (fun path base => Ok (base ++ path)) site parse
        (fun _ => Ok tt).

End MorePages.

(* ================================================================== *)
(** ** Facts about strings *)
(* ================================================================== *)

Module JsStringFacts.
Import JsString.

Lemma append_empty_r (s : string) : s ++ "" = s.
Proof. induction s as [|c s IH]; simpl; [reflexivity | now rewrite IH]. Qed.

Lemma append_assoc (a b c : string) : (a ++ b) ++ c = a ++ b ++ c.
Proof. induction a as [|x a IH]; simpl; [reflexivity | now rewrite IH]. Qed.

Lemma startsWith_spec (s p : string) :
  startsWith s p = true <-> exists post, s = p ++ post.
Proof.
  revert s; induction p as [|c p IH]; intros s.
  - simpl. split; [intros _; now exists s | reflexivity].
  - destruct s as [|d s]; simpl.
    + split; [discriminate | intros [post H]; discriminate].
    + rewrite andb_true_iff, Ascii.eqb_eq, IH. split.
      * intros [-> [post ->]]. now exists post.
      * intros [post H]. inversion H. split; [reflexivity | now exists post].
Qed.

(** [includes] decides the occurrence of a substring. *)
Lemma includes_spec (s sub : string) :
  includes s sub = true <-> exists pre post, s = pre ++ sub ++ post.
Proof.
  split.
  - induction s as [|c s IH]; simpl; rewrite orb_true_iff;
      intros [H|H]; try discriminate.
    + apply startsWith_spec in H as [post H]. now exists "", post.
    + apply startsWith_spec in H as [post H]. now exists "", post.
    + destruct (IH H) as (pre & post & E).
      exists (String c pre), post. simpl. now rewrite E.
  - intros (pre & post & E). revert s E.
    induction pre as [|c pre IH]; intros s E; simpl in E.
    + assert (P : startsWith s sub = true)
        by (apply startsWith_spec; now exists post).
      destruct s; simpl; now rewrite P.
    + subst s. simpl. rewrite (IH _ eq_refl). apply orb_true_r.
Qed.

Lemma toLowerCase_app (a b : string) :
  toLowerCase (a ++ b) = toLowerCase a ++ toLowerCase b.
Proof. induction a as [|c a IH]; simpl; [reflexivity | now rewrite IH]. Qed.



(** Lower-casing works character by character, so a split of the
    lower-cased text is the image of a split of the text. *)
Lemma toLowerCase_app_inv (t a b : string) :
  toLowerCase t = a ++ b ->
  exists ta tb, t = ta ++ tb /\ toLowerCase ta = a /\ toLowerCase tb = b.
Proof.
  revert t; induction a as [|c a IH]; intros t H.
  - exists "", t. auto.
  - destruct t as [|d t]; simpl in H; [discriminate|].
    inversion H as [[Hc Ht]]. destruct (IH _ Ht) as (ta & tb & -> & Ha & Hb).
    exists (String d ta), tb. simpl. now rewrite Ha, Hb.
Qed.

(** What the test [text.toLowerCase().includes(needle)] means: some piece
    of the text lower-cases to the needle as it is written. *)
Lemma includes_lower_spec (text needle : string) :
  includes (toLowerCase text) needle = true <->
  exists pre mid post, text = pre ++ mid ++ post /\ toLowerCase mid = needle.
Proof.
  rewrite includes_spec. split.
  - intros (pre' & post' & E).
    destruct (toLowerCase_app_inv _ _ _ E) as (pre & rest & -> & _ & Hrest).
    destruct (toLowerCase_app_inv _ _ _ Hrest) as (mid & post & -> & Hmid & _).
    now exists pre, mid, post.
  - intros (pre & mid & post & -> & Hmid).
    exists (toLowerCase pre), (toLowerCase post).
    now rewrite !toLowerCase_app, Hmid.
Qed.

(** For a needle written in lower case the test is the case-insensitive
    occurrence. *)
Lemma includes_lower_ci (text needle : string) :
  toLowerCase needle = needle ->
  (includes (toLowerCase text) needle = true <-> contains_ci text needle).
Proof.
  intros Hn. rewrite includes_lower_spec. unfold contains_ci.
  rewrite Hn. reflexivity.
Qed.


Lemma take_run_spec (tok post : string) :
  all_chars is_digit_or_dot tok = true ->
  run_ends post = true ->
  take_run (tok ++ post) = tok.
Proof.
  intros Htok Hpost. induction tok as [|c tok IH]; simpl in *.
  - destruct post as [|d post]; simpl in *; [reflexivity|].
    apply negb_true_iff in Hpost. now rewrite Hpost.
  - apply andb_true_iff in Htok as [Hc Htok]. rewrite Hc. now rewrite IH.
Qed.

(** The match of [/[\d.]+/] is the leftmost maximal run of digits and
    dots. *)
Lemma match_digits_dots_spec (pre tok post : string) :
  no_char is_digit_or_dot pre = true ->
  all_chars is_digit_or_dot tok = true ->
  tok <> "" ->
  run_ends post = true ->
  match_digits_dots (pre ++ tok ++ post) = Some tok.
Proof.
  intros Hpre Htok Hne Hpost. induction pre as [|c pre IH]; simpl in *.
  - destruct tok as [|c tok]; [contradiction|].
    pose proof Htok as Htok'. simpl in Htok'.
    apply andb_true_iff in Htok' as [Hc _].
    change (String c tok ++ post) with (String c (tok ++ post)).
    cbn [match_digits_dots]. rewrite Hc.
    change (String c (tok ++ post)) with (String c tok ++ post).
    now rewrite take_run_spec.
  - unfold no_char in Hpre. simpl in Hpre.
    apply andb_true_iff in Hpre as [Hc Hpre].
    apply negb_true_iff in Hc. rewrite Hc. now apply IH.
Qed.

Lemma match_digits_dots_none (s : string) :
  no_char is_digit_or_dot s = true -> match_digits_dots s = None.
Proof.
  unfold no_char. induction s as [|c s IH]; simpl; [reflexivity|].
  intros H. apply andb_true_iff in H as [Hc Hs].
  apply negb_true_iff in Hc. rewrite Hc. now apply IH.
Qed.

(** Every text falls under one of the two cases. *)
Lemma digits_dots_cases (s : string) :
  no_char is_digit_or_dot s = true \/
  exists pre tok post,
    s = pre ++ tok ++ post /\ no_char is_digit_or_dot pre = true /\
    all_chars is_digit_or_dot tok = true /\ tok <> "" /\ run_ends post = true.
Proof.
  assert (R : forall t, exists tok post,
             t = tok ++ post /\ all_chars is_digit_or_dot tok = true /\
             run_ends post = true).
  { induction t as [|c t (tok & post & E & Ht & Hp)].
    - now exists "", "".
    - destruct (is_digit_or_dot c) eqn:Hc.
      + exists (String c tok), post. simpl. rewrite Hc, Ht, Hp, <- E. auto.
      + exists "", (String c t). simpl. rewrite Hc. auto. }
  induction s as [|c s IH].
  - now left.
  - destruct (is_digit_or_dot c) eqn:Hc.
    + right. destruct (R s) as (tok & post & E & Ht & Hp).
      exists "", (String c tok), post. simpl. rewrite Hc, Ht, Hp, <- E.
      repeat split; auto; discriminate.
    + destruct IH as [IH | (pre & tok & post & E & Hpre & Ht & Hne & Hp)].
      * left. unfold no_char in *. simpl. now rewrite Hc, IH.
      * right. exists (String c pre), tok, post. subst s.
        unfold no_char in *. simpl. rewrite Hc, Hpre. auto.
Qed.

Lemma or_default_nonempty (s dflt : string) :
  s <> "" -> or_default (Some s) dflt = s.
Proof. destruct s; [contradiction | reflexivity]. Qed.

End JsStringFacts.

(* ================================================================== *)
(** ** Facts about the DOM *)
(* ================================================================== *)

Module DomFacts.
Import Dom.
Local Open Scope list_scope.

(** Induction on the tree, with the hypothesis for every child. *)
Lemma Node_induction (P : Node -> Prop) :
  (forall d, P (Text d)) ->
  (forall t c i h ks, Forall P ks -> P (Elem t c i h ks)) ->
  forall n, P n.
Proof.
  intros HT HE. fix IH 1. intros [d|t c i h ks]; [apply HT|].
  apply HE. induction ks as [|k ks IHks]; constructor; [apply IH | apply IHks].
Qed.

Lemma walk_elem (anc : list Info) (r : Ref) (last : bool)
  (t : string) (c : list string) (i h : string) (ks : list Node) :
  walk anc r last (Elem t c i h ks) =
  mkLocated (mkInfo r t c i last) anc
  :: walk_list (mkInfo r t c i last :: anc) r 0 ks.
Proof.
  simpl. f_equal. generalize 0.
  induction ks as [|k ks IH]; intros j; simpl; [reflexivity|].
  now rewrite IH.
Qed.

Lemma nodeAt_app (n : Node) (r s : Ref) :
  nodeAt n (r ++ s) =
  match nodeAt n r with
  | Some m => nodeAt m s
  | None => None
  end.
Proof.
  revert n; induction r as [|i r IH]; intros n; simpl; [reflexivity|].
  destruct (nth_error (childNodes_of n) i); [apply IH | reflexivity].
Qed.

Lemma skipn_after {A : Type} (pre : list A) (k : A) (post : list A) :
  skipn (S (List.length pre)) (pre ++ k :: post) = post.
Proof. induction pre as [|x pre IH]; simpl; [reflexivity | exact IH]. Qed.

(** *** Every listed element is an element of the document *)

Lemma walk_list_located (doc : Document) (r : Ref) (anc : list Info)
  (t : string) (c : list string) (i h : string) (ks : list Node) :
  nodeAt doc r = Some (Elem t c i h ks) ->
  Forall (fun k =>
            forall anc r last,
              nodeAt doc r = Some k ->
              chain_for r (map i_ref anc) ->
              Forall (info_of doc) anc ->
              (forall p j m,
                  r = p ++ [j] -> nodeAt doc p = Some m ->
                  last = negb (existsb is_element
                                       (skipn (S j) (childNodes_of m)))) ->
              forall l, In l (walk anc r last k) -> located_in doc l) ks ->
  chain_for r (map i_ref (tl anc)) ->
  hd_error (map i_ref anc) = Some r ->
  Forall (info_of doc) anc ->
  forall pre ks',
    ks = pre ++ ks' ->
    forall l, In l (walk_list anc r (List.length pre) ks') -> located_in doc l.
Proof.
  intros Hr IH Hchain Hhd Hanc pre ks'. revert pre.
  induction ks' as [|k ks' IHks]; intros pre E l Hl; simpl in Hl; [contradiction|].
  apply in_app_or in Hl as [Hl|Hl].
  - rewrite Forall_forall in IH.
    assert (Hk : In k ks) by (rewrite E; apply in_or_app; right; now left).
    apply (IH k Hk anc (r ++ [List.length pre])
              (negb (existsb is_element ks'))); auto.
    + rewrite nodeAt_app, Hr. simpl. rewrite E.
      rewrite nth_error_app2 by lia. now rewrite Nat.sub_diag.
    + destruct anc as [|a anc]; simpl in *; [discriminate|].
      inversion Hhd; subst. now constructor.
    + intros p j m Ep Hp. apply app_inj_tail in Ep as [<- <-].
      rewrite Hr in Hp. inversion Hp; subst m.
      cbn [childNodes_of]. now rewrite E, skipn_after.
  - apply (IHks (pre ++ [k])).
    + now rewrite <- app_assoc.
    + replace (List.length (pre ++ [k])) with (S (List.length pre))
        by (rewrite length_app; simpl; lia).
      exact Hl.
Qed.

Lemma walk_located (doc : Document) :
  forall n anc r last,
    nodeAt doc r = Some n ->
    chain_for r (map i_ref anc) ->
    Forall (info_of doc) anc ->
    (forall p j m,
        r = p ++ [j] -> nodeAt doc p = Some m ->
        last = negb (existsb is_element (skipn (S j) (childNodes_of m)))) ->
    forall l, In l (walk anc r last n) -> located_in doc l.
Proof.
  induction n as [d|t c i h ks IH] using Node_induction;
    intros anc r last Hr Hchain Hanc Hlast l Hl.
  - contradiction.
  - rewrite walk_elem in Hl. destruct Hl as [<-|Hl].
    + repeat split; simpl; auto. now exists h, ks.
    + apply (walk_list_located doc r (mkInfo r t c i last :: anc)
               t c i h ks Hr IH) with (pre := []) (ks' := ks); auto.
      constructor; auto. split; simpl; [now exists h, ks | exact Hlast].
Qed.

(** Everything [elements] lists is an element of the document, described
    as the document has it and with its true ancestors. *)
Lemma elements_located (doc : Document) (l : Located) :
  In l (elements doc) -> located_in doc l.
Proof.
  apply (walk_located doc doc [] [] true); auto.
  - constructor.
  - intros p j m E. now destruct p.
Qed.

(** *** Every element of the document is listed *)

Lemma walk_list_nth (anc : list Info) (r : Ref) (ks : list Node) :
  forall i j k l,
    nth_error ks j = Some k ->
    In l (walk anc (r ++ [i + j])
               (negb (existsb is_element (skipn (S j) ks))) k) ->
    In l (walk_list anc r i ks).
Proof.
  induction ks as [|k0 ks IH]; intros i j k l Hn Hl.
  - now destruct j.
  - destruct j as [|j]; simpl in Hn.
    + inversion Hn; subst k0. rewrite Nat.add_0_r in Hl.
      simpl. apply in_or_app. now left.
    + cbn [walk_list]. apply in_or_app. right.
      apply (IH (S i) j k l Hn).
      replace (S i + j) with (i + S j) by lia. exact Hl.
Qed.

Lemma walk_complete :
  forall n anc r last s t c i h ks,
    nodeAt n s = Some (Elem t c i h ks) ->
    exists l, In l (walk anc r last n) /\ loc_ref l = r ++ s.
Proof.
  induction n as [d|t0 c0 i0 h0 ks0 IH] using Node_induction;
    intros anc r last s t c i h ks Hs.
  - destruct s as [|j s]; simpl in Hs; [discriminate|].
    now destruct j.
  - rewrite walk_elem. destruct s as [|j s].
    + eexists. split; [now left|]. simpl. now rewrite app_nil_r.
    + simpl in Hs. destruct (nth_error ks0 j) as [k|] eqn:Hj; [|discriminate].
      rewrite Forall_forall in IH.
      destruct (IH k (nth_error_In _ _ Hj)
                   (mkInfo r t0 c0 i0 last :: anc) (r ++ [j])
                   (negb (existsb is_element (skipn (S j) ks0)))
                   s t c i h ks Hs) as (l & Hl & Href).
      exists l. split.
      * right. now apply (walk_list_nth _ _ _ 0 j k).
      * rewrite Href. now rewrite <- app_assoc.
Qed.

Lemma elements_complete (doc : Document) (r : Ref)
  (t : string) (c : list string) (i h : string) (ks : list Node) :
  nodeAt doc r = Some (Elem t c i h ks) ->
  exists l, In l (elements doc) /\ loc_ref l = r.
Proof. intros H. now apply (walk_complete doc [] [] true r t c i h ks). Qed.

(** *** Document order *)

Lemma doc_before_app (r a b : Ref) :
  doc_before (r ++ a) (r ++ b) <-> doc_before a b.
Proof.
  induction r as [|x r IH]; simpl; [reflexivity|].
  rewrite IH. split; [intros [H|[_ H]]; [lia | exact H] | auto].
Qed.

Lemma doc_before_irrefl (a : Ref) : ~ doc_before a a.
Proof. induction a as [|x a IH]; simpl; [tauto | intros [H|[_ H]]; [lia | auto]]. Qed.

Lemma doc_before_trans (a b c : Ref) :
  doc_before a b -> doc_before b c -> doc_before a c.
Proof.
  revert b c; induction a as [|x a IH]; intros [|y b] [|z c]; simpl; try tauto.
  intros [H1|[-> H1]] [H2|[-> H2]]; try (left; lia).
  right. split; [reflexivity | now apply (IH b c)].
Qed.

(** An element comes before each of its descendants. *)
Lemma is_descendant_iff (a b : Ref) :
  is_descendant a b = true <-> exists j s, b = a ++ j :: s.
Proof.
  revert b; induction a as [|x a IH]; intros [|y b]; simpl.
  - split; [discriminate | intros (j & s & H); discriminate].
  - split; [intros _; now exists y, b | reflexivity].
  - split; [discriminate | intros (j & s & H); discriminate].
  - rewrite andb_true_iff, Nat.eqb_eq, IH. split.
    + intros [-> (j & s & ->)]. now exists j, s.
    + intros (j & s & H). inversion H. split; [reflexivity | now exists j, s].
Qed.

Lemma descendant_after (a b : Ref) : is_descendant a b = true -> doc_before a b.
Proof.
  intros H. apply is_descendant_iff in H as (j & s & ->).
  rewrite <- (app_nil_r a) at 1. now apply doc_before_app.
Qed.

Lemma StronglySorted_app {A : Type} (R : A -> A -> Prop) (l1 l2 : list A) :
  StronglySorted R l1 -> StronglySorted R l2 ->
  (forall x y, In x l1 -> In y l2 -> R x y) ->
  StronglySorted R (l1 ++ l2).
Proof.
  intros H1 H2 H. induction l1 as [|x l1 IH]; simpl; [exact H2|].
  apply StronglySorted_inv in H1 as [H1 Hx]. constructor.
  - apply IH; [exact H1|]. intros a b Ha Hb. apply H; [now right | exact Hb].
  - apply Forall_app. split; [exact Hx|].
    apply Forall_forall. intros y Hy. apply H; [now left | exact Hy].
Qed.

Lemma StronglySorted_map_filter {A B : Type} (R : B -> B -> Prop)
  (f : A -> B) (p : A -> bool) (l : list A) :
  StronglySorted R (map f l) -> StronglySorted R (map f (filter p l)).
Proof.
  induction l as [|x l IH]; simpl; intros H; [constructor|].
  apply StronglySorted_inv in H as [H Hx].
  destruct (p x); simpl; [|now apply IH]. constructor; [now apply IH|].
  rewrite Forall_forall in *. intros y Hy. apply Hx.
  apply in_map_iff in Hy as (a & <- & Ha). apply in_map.
  now apply filter_In in Ha as [Ha _].
Qed.

Lemma walk_refs :
  forall n anc r last l,
    In l (walk anc r last n) -> exists s, loc_ref l = r ++ s.
Proof.
  induction n as [d|t c i h ks IH] using Node_induction;
    intros anc r last l Hl; [contradiction|].
  rewrite walk_elem in Hl. destruct Hl as [<-|Hl].
  - exists []. simpl. now rewrite app_nil_r.
  - revert Hl. generalize 0. generalize (mkInfo r t c i last :: anc).
    induction ks as [|k ks IHks]; intros anc' j Hl; simpl in Hl; [contradiction|].
    apply Forall_cons_iff in IH as [Hk IH].
    apply in_app_or in Hl as [Hl|Hl].
    + destruct (Hk _ _ _ _ Hl) as [s Hs].
      exists (j :: s). rewrite Hs. now rewrite <- app_assoc.
    + now apply (IHks IH anc' (S j)).
Qed.

Lemma walk_list_refs (anc : list Info) (r : Ref) (ks : list Node) :
  forall i l,
    In l (walk_list anc r i ks) ->
    exists j s, i <= j /\ loc_ref l = r ++ j :: s.
Proof.
  induction ks as [|k ks IH]; intros i l Hl; simpl in Hl; [contradiction|].
  apply in_app_or in Hl as [Hl|Hl].
  - destruct (walk_refs _ _ _ _ _ Hl) as [s Hs].
    exists i, s. split; [lia|]. rewrite Hs. now rewrite <- app_assoc.
  - destruct (IH _ _ Hl) as (j & s & Hj & Hs).
    exists j, s. split; [lia | exact Hs].
Qed.

Lemma walk_list_sorted (anc : list Info) (r : Ref) (ks : list Node) :
  Forall (fun k => forall anc r last,
              StronglySorted doc_before (map loc_ref (walk anc r last k))) ks ->
  forall i, StronglySorted doc_before (map loc_ref (walk_list anc r i ks)).
Proof.
  induction ks as [|k ks IH]; intros HF i; simpl; [constructor|].
  apply Forall_cons_iff in HF as [Hk HF].
  rewrite map_app. apply StronglySorted_app; [apply Hk | now apply IH |].
  intros x y Hx Hy.
  apply in_map_iff in Hx as (lx & <- & Hx).
  apply in_map_iff in Hy as (ly & <- & Hy).
  destruct (walk_refs _ _ _ _ _ Hx) as [s ->].
  destruct (walk_list_refs _ _ _ _ _ Hy) as (j & s' & Hj & ->).
  rewrite <- app_assoc. apply doc_before_app. simpl. left. lia.
Qed.

Lemma walk_sorted :
  forall n anc r last,
    StronglySorted doc_before (map loc_ref (walk anc r last n)).
Proof.
  induction n as [d|t c i h ks IH] using Node_induction; intros anc r last.
  - constructor.
  - rewrite walk_elem. simpl. constructor.
    + now apply walk_list_sorted.
    + apply Forall_forall. intros y Hy.
      apply in_map_iff in Hy as (l & <- & Hl).
      destruct (walk_list_refs _ _ _ _ _ Hl) as (j & s & _ & ->).
      unfold loc_ref at 1. simpl.
      rewrite <- (app_nil_r r) at 1. now apply doc_before_app.
Qed.

(** [querySelectorAll] answers in document order, without repetition. *)
Lemma querySelectorAll_document_order (doc : Document) (el : Ref)
  (s : Selector) :
  StronglySorted doc_before (querySelectorAll doc el s).
Proof.
  unfold querySelectorAll.
  apply (StronglySorted_map_filter doc_before loc_ref).
  apply walk_sorted.
Qed.

(** Every answer of [querySelectorAll] is an element of the document
    below the element the query starts from. *)
Lemma querySelectorAll_descendants (doc : Document) (el : Ref)
  (s : Selector) (r : Ref) :
  In r (querySelectorAll doc el s) ->
  is_descendant el r = true /\
  exists t c i h ks, nodeAt doc r = Some (Elem t c i h ks).
Proof.
  unfold querySelectorAll. intros H.
  apply in_map_iff in H as (l & <- & Hl).
  apply filter_In in Hl as [Hl Hm].
  apply andb_true_iff in Hm as [Hd _]. split; [exact Hd|].
  destruct (elements_located _ _ Hl) as [[(h & ks & Hn) _] _].
  now exists (i_tag (l_self l)), (i_classes (l_self l)), (i_id (l_self l)), h, ks.
Qed.

(** What [querySelector] finds comes before every other match. *)
Lemma querySelector_first (doc : Document) (el : Ref) (s : Selector)
  (m r : Ref) :
  querySelector doc el s = Some m ->
  In r (querySelectorAll doc el s) ->
  r = m \/ doc_before m r.
Proof.
  unfold querySelector. intros Hm Hr.
  pose proof (querySelectorAll_document_order doc el s) as Hs.
  destruct (querySelectorAll doc el s) as [|x l]; [discriminate|].
  inversion Hm; subst x. destruct Hr as [->|Hr]; [now left | right].
  apply StronglySorted_inv in Hs as [_ Hs].
  rewrite Forall_forall in Hs. now apply Hs.
Qed.


(** *** The selector [:scope > :last-child a] *)

Lemma matches_last_child_of_scope (scope : Ref) (anc : list Info) :
  matches_left scope [(Descendant, last_child_); (Child, scope_)] anc = true
  <-> exists pre a p rest,
        anc = pre ++ a :: p :: rest /\
        i_last_child a = true /\ i_ref p = scope.
Proof.
  cbn [matches_left]. induction anc as [|x anc IH].
  - split; [discriminate | intros (pre & a & p & rest & E & _)].
    now destruct pre.
  - rewrite orb_true_iff, IH. split.
    + intros [H|(pre & a & p & rest & -> & Ha & Hp)].
      * apply andb_true_iff in H as [Hx H].
        destruct anc as [|p anc]; [discriminate|].
        exists [], x, p, anc. repeat split.
        -- unfold matches_compound in Hx. simpl in Hx. exact Hx.
        -- apply andb_true_iff in H as [H _].
           unfold matches_compound, ref_eqb in H. simpl in H.
           rewrite andb_true_r in H.
           now destruct (list_eq_dec Nat.eq_dec (i_ref p) scope).
      * exists (x :: pre), a, p, rest. auto.
    + intros (pre & a & p & rest & E & Ha & Hp).
      destruct pre as [|y pre]; simpl in E; inversion E; subst.
      * left. unfold matches_compound at 1. simpl. rewrite Ha. simpl.
        unfold matches_compound, ref_eqb. simpl.
        now destruct (list_eq_dec Nat.eq_dec (i_ref p) (i_ref p)).
      * right. now exists pre, a, p, rest.
Qed.

Lemma is_descendant_snoc (a r : Ref) (i : nat) :
  is_descendant a (r ++ [i]) = true <-> a = r \/ is_descendant a r = true.
Proof.
  rewrite !is_descendant_iff. split.
  - intros (j & s & E).
    destruct (exists_last (l := j :: s)) as (s' & k & Es); [discriminate|].
    rewrite Es, app_assoc in E. apply app_inj_tail in E as [-> ->].
    destruct s' as [|j' s'].
    + left. now rewrite app_nil_r.
    + right. now exists j', s'.
  - intros [->|(j & s & ->)].
    + now exists i, [].
    + exists j, (s ++ [i]). now rewrite <- app_assoc.
Qed.

Lemma chain_for_parent (r : Ref) (refs : list Ref) :
  chain_for r refs ->
  forall pre a p rest,
    refs = pre ++ a :: p :: rest ->
    (exists j, a = p ++ [j]) /\ is_descendant a r = true.
Proof.
  induction 1 as [|r i anc Hc IH]; intros pre a p rest E.
  - now destruct pre.
  - destruct pre as [|x pre]; simpl in E; inversion E; subst.
    + split.
      * inversion Hc; subst. now exists i0.
      * apply is_descendant_snoc. now left.
    + destruct (IH _ _ _ _ eq_refl) as [Hj Hd]. split; [exact Hj|].
      apply is_descendant_snoc. now right.
Qed.

Lemma chain_for_ancestor (r : Ref) (refs : list Ref) :
  chain_for r refs -> forall a, is_descendant a r = true -> In a refs.
Proof.
  induction 1 as [|r i anc Hc IH]; intros a Ha.
  - now destruct a.
  - apply is_descendant_snoc in Ha as [->|Ha]; [now left | right; auto].
Qed.

Lemma chain_for_split (r : Ref) (refs : list Ref) :
  chain_for r refs ->
  forall c j, In (c ++ [j]) refs ->
              exists pre rest, refs = pre ++ (c ++ [j]) :: c :: rest.
Proof.
  induction 1 as [|r i anc Hc IH]; intros c j Hin; [contradiction|].
  destruct Hin as [->|Hin].
  - inversion Hc as [E|r0 i0 anc0 Hc0 E1 E2].
    + now destruct c.
    + apply app_inj_tail in E1 as [-> ->]. now exists [], anc0.
  - destruct (IH _ _ Hin) as (pre & rest & ->).
    now exists (r :: pre), rest.
Qed.

Lemma last_error_map {A B : Type} (f : A -> B) (l : list A) :
  last_error (map f l) = option_map f (last_error l).
Proof.
  induction l as [|x l IH]; [reflexivity|].
  destruct l as [|y l]; [reflexivity|]. exact IH.
Qed.

Lemma element_indices_nil (ks : list Node) :
  forall i, element_indices i ks = [] <-> existsb is_element ks = false.
Proof.
  induction ks as [|k ks IH]; intros i; simpl; [tauto|].
  destruct (is_element k); simpl; [|apply IH].
  split; discriminate.
Qed.

Lemma element_indices_last (ks : list Node) :
  forall i x,
    last_error (element_indices i ks) = Some x <->
    exists j, x = i + j /\
              (exists k, nth_error ks j = Some k /\ is_element k = true) /\
              existsb is_element (skipn (S j) ks) = false.
Proof.
  induction ks as [|k ks IH]; intros i x.
  - simpl. split; [discriminate | intros (j & _ & (k & H & _) & _)].
    now destruct j.
  - cbn [element_indices]. destruct (is_element k) eqn:Hk.
    + cbn [last_error].
      destruct (element_indices (S i) ks) as [|y l] eqn:El.
      * apply element_indices_nil in El. split.
        -- intros [= <-]. exists 0. rewrite Nat.add_0_r. simpl.
           repeat split; auto. now exists k.
        -- intros (j & -> & (k' & Hn & Hk') & Hs). destruct j as [|j].
           ++ now rewrite Nat.add_0_r.
           ++ exfalso. simpl in Hn. apply nth_error_In in Hn.
              assert (existsb is_element ks = true)
                by (apply existsb_exists; now exists k').
              congruence.
      * rewrite <- El, IH. split.
        -- intros (j & -> & Hn & Hs). exists (S j).
           split; [lia | split; assumption].
        -- intros (j & -> & (k' & Hn & Hk') & Hs). destruct j as [|j].
           ++ exfalso. simpl in Hs.
              assert (E : element_indices (S i) ks = [])
                by now apply element_indices_nil.
              congruence.
           ++ exists j. split; [lia|]. split; [now exists k' | exact Hs].
    + rewrite IH. split.
      * intros (j & -> & Hn & Hs). exists (S j).
        split; [lia | split; assumption].
      * intros (j & -> & (k' & Hn & Hk') & Hs). destruct j as [|j].
        -- simpl in Hn. inversion Hn; subst. congruence.
        -- exists j. split; [lia|]. split; [now exists k' | exact Hs].
Qed.

(** The last element child is the child element that no element
    follows. *)
Lemma lastElementChild_spec (doc : Document) (c L : Ref) :
  lastElementChild doc c = Some L <->
  exists j n k,
    L = c ++ [j] /\ nodeAt doc c = Some n /\
    nth_error (childNodes_of n) j = Some k /\ is_element k = true /\
    existsb is_element (skipn (S j) (childNodes_of n)) = false.
Proof.
  unfold lastElementChild, children.
  destruct (nodeAt doc c) as [n|].
  - rewrite last_error_map.
    destruct (last_error (element_indices 0 (childNodes_of n))) as [x|] eqn:E;
      simpl.
    + apply element_indices_last in E as (j & -> & (k & Hn & Hk) & Hs).
      simpl. split.
      * intros [= <-]. now exists j, n, k.
      * intros (j' & n' & k' & -> & [= <-] & Hn' & Hk' & Hs').
        f_equal. f_equal.
        assert (E : last_error (element_indices 0 (childNodes_of n)) = Some j').
        { apply element_indices_last. exists j'. simpl.
          split; [reflexivity|]. split; [now exists k' | exact Hs']. }
        assert (E' : last_error (element_indices 0 (childNodes_of n)) = Some j).
        { apply element_indices_last. exists j. simpl.
          split; [reflexivity|]. split; [now exists k | exact Hs]. }
        congruence.
    + split; [discriminate|].
      intros (j & n' & k & _ & [= <-] & Hn & Hk & Hs).
      assert (E' : last_error (element_indices 0 (childNodes_of n)) = Some j).
      { apply element_indices_last. exists j. simpl.
        split; [reflexivity|]. split; [now exists k | exact Hs]. }
      congruence.
  - simpl. split; [discriminate|].
    intros (j & n & k & _ & H & _). discriminate.
Qed.


Lemma nodeAt_snoc_inv (doc : Document) (c : Ref) (j : nat) (k : Node) :
  nodeAt doc (c ++ [j]) = Some k ->
  exists n, nodeAt doc c = Some n /\ nth_error (childNodes_of n) j = Some k.
Proof.
  rewrite nodeAt_app. destruct (nodeAt doc c) as [n|]; [|discriminate].
  simpl. destruct (nth_error (childNodes_of n) j) as [k'|] eqn:Hj;
    [|discriminate].
  intros [= <-]. now exists n.
Qed.

Lemma is_anchor_iff (doc : Document) (l : Located) :
  info_of doc (l_self l) ->
  (is_anchor doc (loc_ref l) = true <-> String.eqb "a" (i_tag (l_self l)) = true).
Proof.
  intros [(h & ks & Hn) _]. unfold is_anchor, loc_ref. now rewrite Hn.
Qed.

(** The matches of [:scope > :last-child a] under [c] are the [a]
    elements below the last element child of [c]. *)
Lemma last_child_anchor_spec (doc : Document) (c r : Ref) :
  In r (querySelectorAll doc c sel_last_child_anchor) <->
  exists L, lastElementChild doc c = Some L /\
            is_descendant L r = true /\ is_anchor doc r = true.
Proof.
  unfold querySelectorAll. rewrite in_map_iff. split.
  - intros (l & <- & Hl). apply filter_In in Hl as [Hl Hm].
    destruct (elements_located _ _ Hl) as (Hself & Hchain & Hanc).
    apply andb_true_iff in Hm as [_ Hm]. unfold matches in Hm.
    apply andb_true_iff in Hm as [Htag Hleft].
    apply matches_last_child_of_scope in Hleft
      as (pre & a & p & rest & E & Ha & Hp).
    rewrite E, map_app in Hchain. simpl in Hchain.
    destruct (chain_for_parent _ _ Hchain _ _ _ _ eq_refl) as [[j Hj] Hd].
    rewrite Hp in Hj.
    assert (Hia : info_of doc a).
    { rewrite Forall_forall in Hanc. apply Hanc. rewrite E.
      apply in_or_app. right. now left. }
    destruct Hia as [(h & ks & Hn) Hlast]. rewrite Hj in Hn.
    destruct (nodeAt_snoc_inv _ _ _ _ Hn) as (n & Hc & Hk).
    exists (i_ref a). repeat split.
    + apply lastElementChild_spec. exists j, n, (Elem (i_tag a) (i_classes a) (i_id a) h ks).
      repeat split; auto.
      specialize (Hlast c j n Hj Hc). rewrite Ha in Hlast.
      now destruct (existsb is_element (skipn (S j) (childNodes_of n))).
    + exact Hd.
    + apply (is_anchor_iff doc l Hself).
      unfold matches_compound in Htag. simpl in Htag.
      now rewrite !andb_true_r in Htag.
  - intros (L & HL & Hd & Ha).
    apply lastElementChild_spec in HL as (j & n & k & -> & Hc & Hk & Hel & Hs).
    assert (Hr : exists t cs i h ks, nodeAt doc r = Some (Elem t cs i h ks)).
    { unfold is_anchor in Ha. destruct (nodeAt doc r) as [[d|t cs i h ks]|];
        try discriminate. now exists t, cs, i, h, ks. }
    destruct Hr as (t & cs & i & h & ks & Hr).
    destruct (elements_complete _ _ _ _ _ _ _ Hr) as (l & Hl & <-).
    destruct (elements_located _ _ Hl) as (Hself & Hchain & Hanc).
    exists l. split; [reflexivity|]. apply filter_In. split; [exact Hl|].
    apply andb_true_iff. split.
    + apply is_descendant_iff in Hd as (j' & s & Hd).
      apply is_descendant_iff. exists j, (j' :: s).
      change (i_ref (l_self l)) with (loc_ref l).
      rewrite Hd. now rewrite <- app_assoc.
    + unfold matches. apply andb_true_iff. split.
      * unfold matches_compound. simpl. rewrite !andb_true_r.
        now apply (is_anchor_iff doc l Hself).
      * apply matches_last_child_of_scope.
        pose proof (chain_for_ancestor _ _ Hchain _ Hd) as Hin.
        destruct (chain_for_split _ _ Hchain _ _ Hin) as (pre & rest & E).
        apply map_eq_app in E as (pre' & tl' & E & _ & E2).
        apply map_eq_cons in E2 as (a & tl'' & -> & Hia & E3).
        apply map_eq_cons in E3 as (p & rest' & -> & Hip & _).
        exists pre', a, p, rest'. repeat split; auto.
        assert (Ha' : info_of doc a).
        { rewrite Forall_forall in Hanc. apply Hanc. rewrite E.
          apply in_or_app. right. now left. }
        destruct Ha' as [_ Hlast].
        rewrite (Hlast c j n Hia Hc), Hs. reflexivity.
Qed.

(** The link the resolvers report is the first [a] element, in document
    order, below the last element child of the container. *)
Lemma moreUploads_spec (doc : Document) (c m : Ref) :
  querySelector doc c sel_last_child_anchor = Some m ->
  first_anchor_in_last_child doc c m.
Proof.
  intros Hm. split.
  - apply last_child_anchor_spec. unfold querySelector in Hm.
    destruct (querySelectorAll doc c sel_last_child_anchor); [discriminate|].
    inversion Hm. now left.
  - intros L r HL Hd Ha. apply (querySelector_first doc c _ m r Hm).
    apply last_child_anchor_spec. now exists L.
Qed.

(** A container whose last element child holds no [a] element has no
    link to report, in particular when that child is itself the link. *)
Lemma moreUploads_none (doc : Document) (c : Ref) :
  querySelector doc c sel_last_child_anchor = None <->
  no_anchor_in_last_child doc c.
Proof.
  unfold querySelector, no_anchor_in_last_child. split.
  - intros H L r HL Hd. destruct (is_anchor doc r) eqn:Ha; [|reflexivity].
    assert (Hin : In r (querySelectorAll doc c sel_last_child_anchor))
      by (apply last_child_anchor_spec; now exists L).
    destruct (querySelectorAll doc c sel_last_child_anchor);
      [contradiction | discriminate].
  - intros H.
    destruct (querySelectorAll doc c sel_last_child_anchor) as [|r l] eqn:E;
      [reflexivity|].
    assert (Hin : In r (querySelectorAll doc c sel_last_child_anchor))
      by (rewrite E; now left).
    apply last_child_anchor_spec in Hin as (L & HL & Hd & Ha).
    rewrite (H L r HL Hd) in Ha. discriminate.
Qed.

(** The converse: the first [a] element below the last element child is
    what [querySelector] finds. *)
Lemma moreUploads_found (doc : Document) (c m : Ref) :
  first_anchor_in_last_child doc c m ->
  querySelector doc c sel_last_child_anchor = Some m.
Proof.
  intros [Hm Hfirst].
  apply last_child_anchor_spec in Hm.
  destruct (querySelector doc c sel_last_child_anchor) as [x|] eqn:Hx.
  - destruct (moreUploads_spec _ _ _ Hx) as [(L & HL & Hd & Ha) _].
    destruct (Hfirst L x HL Hd Ha) as [->|H1]; [reflexivity|].
    destruct (querySelector_first _ _ _ _ _ Hx Hm) as [->|H2]; [reflexivity|].
    exfalso. apply (doc_before_irrefl m). now apply (doc_before_trans m x m).
  - unfold querySelector in Hx.
    destruct (querySelectorAll doc c sel_last_child_anchor);
      [contradiction | discriminate].
Qed.

End DomFacts.

(* ================================================================== *)
(** ** Facts about searches and computations *)
(* ================================================================== *)

Section Searches.

Context {A : Type}.

Lemma find_first (f : A -> bool) (before : list A) (x : A) (after : list A) :
  (forall y, In y before -> f y = false) ->
  f x = true ->
  find f (before ++ x :: after)%list = Some x.
Proof.
  intros Hb Hx. induction before as [|y before IH]; simpl.
  - now rewrite Hx.
  - rewrite (Hb y (or_introl eq_refl)). apply IH.
    intros z Hz. apply Hb. now right.
Qed.

Lemma find_all_false (f : A -> bool) (l : list A) :
  (forall y, In y l -> f y = false) -> find f l = None.
Proof.
  intros H. induction l as [|y l IH]; simpl; [reflexivity|].
  rewrite (H y (or_introl eq_refl)). apply IH.
  intros z Hz. apply H. now right.
Qed.

Lemma findM_first (f : A -> result bool) (before : list A) (x : A)
  (after : list A) :
  (forall y, In y before -> f y = Ok false) ->
  f x = Ok true ->
  findM f (before ++ x :: after)%list = Ok (Some x).
Proof.
  intros Hb Hx. induction before as [|y before IH]; simpl.
  - now rewrite Hx.
  - rewrite (Hb y (or_introl eq_refl)). apply IH.
    intros z Hz. apply Hb. now right.
Qed.

Lemma findM_throws (f : A -> result bool) (before : list A) (x : A)
  (after : list A) (e : Error) :
  (forall y, In y before -> f y = Ok false) ->
  f x = Throw e ->
  findM f (before ++ x :: after)%list = Throw e.
Proof.
  intros Hb Hx. induction before as [|y before IH]; simpl.
  - now rewrite Hx.
  - rewrite (Hb y (or_introl eq_refl)). apply IH.
    intros z Hz. apply Hb. now right.
Qed.

(** What a successful search has seen: the answer passed the test and
    everything before it failed it without throwing. *)
Lemma findM_some_inv (f : A -> result bool) (l : list A) (x : A) :
  findM f l = Ok (Some x) ->
  exists before after,
    l = (before ++ x :: after)%list /\ f x = Ok true /\
    forall y, In y before -> f y = Ok false.
Proof.
  induction l as [|y l IH]; simpl; [discriminate|].
  destruct (f y) as [[|]|e] eqn:Hy; try discriminate.
  - intros H. inversion H; subst. exists [], l. simpl. tauto.
  - intros H. destruct (IH H) as (before & after & -> & Hx & Hb).
    exists (y :: before), after. simpl. repeat split; auto.
    intros z [<-|Hz]; auto.
Qed.

End Searches.

Section Computations.

Context {A B : Type}.

Lemma bind_lift_ok (a : A) (k : A -> M B) : bind (lift (Ok a)) k = k a.
Proof. unfold bind, lift. now destruct (k a). Qed.

Lemma bind_lift_throw (e : Error) (k : A -> M B) :
  bind (lift (Throw e)) k = ([], Throw e).
Proof. reflexivity. Qed.

Lemma bind_ret (a : A) (k : A -> M B) : bind (ret a) k = k a.
Proof. unfold bind, ret. now destruct (k a). Qed.

Lemma outcome_bind (m : M A) (k : A -> M B) :
  outcome (bind m k) =
  match outcome m with
  | Ok a => outcome (k a)
  | Throw e => Throw e
  end.
Proof.
  destruct m as [t [a|e]]; simpl; [|reflexivity]. now destruct (k a).
Qed.

Lemma trace_bind (m : M A) (k : A -> M B) :
  trace (bind m k) =
  (trace m ++ match outcome m with
              | Ok a => trace (k a)
              | Throw _ => []
              end)%list.
Proof.
  destruct m as [t [a|e]]; simpl.
  - now destruct (k a).
  - now rewrite app_nil_r.
Qed.

End Computations.

Lemma M_eta {A : Type} (m : M A) : m = (trace m, outcome m).
Proof. now destruct m. Qed.

Lemma outcome_console_debug (env : Env) (line : string) :
  outcome (console_debug env line) = Ok tt.
Proof. unfold console_debug. now destruct (DEBUG_ENABLED env). Qed.

Lemma outcome_debug_anchor (env : Env) (doc : Document) (x : Ref) (i : nat) :
  outcome (debug_anchor env doc x i) = Ok tt.
Proof.
  unfold debug_anchor.
  now rewrite !outcome_bind, !outcome_console_debug.
Qed.

Lemma outcome_forEach_debug (env : Env) (doc : Document) (l : list Ref) :
  forall i, outcome (forEachM (debug_anchor env doc) i l) = Ok tt.
Proof.
  induction l as [|x l IH]; intros i; simpl; [reflexivity|].
  now rewrite outcome_bind, outcome_debug_anchor, IH.
Qed.

(* ================================================================== *)
(** ** The selector utilities *)
(* ================================================================== *)

Lemma queryAll_found (doc : Document) (el : Ref) (s : Selector) :
  querySelectorAll doc el s <> [] ->
  queryAll doc (Some el) s = Ok (querySelectorAll doc el s).
Proof.
  intros H. unfold queryAll. simpl.
  destruct (querySelectorAll doc el s); [contradiction | reflexivity].
Qed.

Lemma queryAll_nothing (doc : Document) (el : Ref) (s : Selector) :
  querySelectorAll doc el s = [] ->
  queryAll doc (Some el) s = Throw SelectorNotFound.
Proof. intros H. unfold queryAll. simpl. now rewrite H. Qed.

Lemma queryAll_null (doc : Document) (s : Selector) :
  queryAll doc None s = Throw SelectorNotFound.
Proof. reflexivity. Qed.

(** [queryAll] never answers with an empty list. *)
Lemma queryAll_nonempty (doc : Document) (el : option Ref) (s : Selector)
  (l : list Ref) :
  queryAll doc el s = Ok l -> l <> [].
Proof.
  unfold queryAll. destruct el as [el|]; simpl; [|discriminate].
  destruct (querySelectorAll doc el s); simpl; [discriminate|].
  intros H; inversion H; discriminate.
Qed.

(** The container [findContainerWithHeading] returns is the first of the
    list whose heading includes the text. *)
Lemma findContainerWithHeading_first (doc : Document) (text : string)
  (before : list Ref) (x : Ref) (after : list Ref) :
  (forall y, In y before -> heading_includes doc text y = false) ->
  heading_includes doc text x = true ->
  findContainerWithHeading doc (before ++ x :: after)%list text = Ok x.
Proof.
  intros Hb Hx. unfold findContainerWithHeading.
  now rewrite (find_first _ _ _ _ Hb Hx).
Qed.

(* ================================================================== *)
(** ** The version resolver *)
(* ================================================================== *)

Lemma stable_text_iff (text : string) :
  negb (JsString.includes (JsString.toLowerCase text) "alpha"
        || JsString.includes (JsString.toLowerCase text) "beta") = true
  <-> ~ prerelease_text text.
Proof.
  unfold prerelease_text.
  rewrite <- (JsStringFacts.includes_lower_ci text "alpha" eq_refl).
  rewrite <- (JsStringFacts.includes_lower_ci text "beta" eq_refl).
  rewrite negb_true_iff, orb_false_iff.
  destruct (JsString.includes (JsString.toLowerCase text) "alpha"),
           (JsString.includes (JsString.toLowerCase text) "beta");
    intuition discriminate.
Qed.

Lemma is_stable_iff (doc : Document) (x : Ref) :
  is_stable doc x = true <-> ~ prerelease_text (textContentAt doc x).
Proof. apply stable_text_iff. Qed.

Lemma is_prerelease_iff (doc : Document) (x : Ref) :
  is_stable doc x = false <-> prerelease_text (textContentAt doc x).
Proof.
  pose proof (is_stable_iff doc x) as H.
  destruct (is_stable doc x).
  - split; [discriminate|]. intros P. exfalso. now apply (proj1 H).
  - split; [|reflexivity]. intros _.
    unfold prerelease_text in *.
    rewrite <- (JsStringFacts.includes_lower_ci _ "alpha" eq_refl).
    rewrite <- (JsStringFacts.includes_lower_ci _ "beta" eq_refl).
    rewrite <- (JsStringFacts.includes_lower_ci _ "alpha" eq_refl) in H.
    rewrite <- (JsStringFacts.includes_lower_ci _ "beta" eq_refl) in H.
    destruct (JsString.includes _ "alpha"); [now left|].
    destruct (JsString.includes _ "beta"); [now right|].
    exfalso. assert (false = true) by (apply H; intros [?|?]; discriminate).
    discriminate.
Qed.

(** A document with version anchors has the versions container. *)
Lemma version_anchors_container (doc : Document) :
  version_anchors doc <> [] -> exists c, versionContainer doc = Ok c.
Proof.
  unfold version_anchors. destruct (versionContainer doc) as [c|e].
  - intros _. now exists c.
  - intros H. now contradiction H.
Qed.

Lemma version_anchors_of (doc : Document) (c : Ref) :
  versionContainer doc = Ok c ->
  version_anchors doc = querySelectorAll doc c sel_version_anchor.
Proof. intros H. unfold version_anchors. now rewrite H. Qed.

(** [getLatestStableURL] once the set-up has found the container and its
    anchors. *)
Lemma getLatestStableURL_listing (env : Env) (doc : Document) (c : Ref) :
  versionContainer doc = Ok c ->
  version_anchors doc <> [] ->
  getLatestStableURL env doc =
  (forEachM (debug_anchor env doc) 0 (version_anchors doc) ;;
   match find (is_stable doc) (version_anchors doc) with
   | None => report_moreUploads doc c ;; throw NoStableVersionFound
   | Some a =>
       console_debug env
         ("Latest Stable Version: " ++ version_label (textContentAt doc a)) ;;
       ret (hrefAt doc a, version_label (textContentAt doc a))
   end).
Proof.
  intros Hc Hv. rewrite (version_anchors_of _ _ Hc) in *.
  unfold getLatestStableURL. unfold versionContainer in Hc.
  destruct (queryAll doc (body doc) sel_listWidget) as [cs|e]; simpl in Hc;
    [|discriminate].
  rewrite bind_lift_ok, Hc, bind_lift_ok.
  rewrite (queryAll_found _ _ _ Hv), bind_lift_ok.
  reflexivity.
Qed.

(** Without version anchors the set-up throws and nothing is printed. *)
Lemma getLatestStableURL_no_anchor (env : Env) (doc : Document) :
  version_anchors doc = [] ->
  exists e, getLatestStableURL env doc = ([], Throw e) /\
            (e = SelectorNotFound \/ e = ContainerNotFound).
Proof.
  intros Hv. unfold getLatestStableURL.
  unfold version_anchors, versionContainer in Hv.
  destruct (queryAll doc (body doc) sel_listWidget) as [cs|e] eqn:Hq;
    simpl in Hv.
  - rewrite bind_lift_ok.
    destruct (findContainerWithHeading doc cs "All versions") as [c|e] eqn:Hf.
    + rewrite bind_lift_ok, (queryAll_nothing _ _ _ Hv).
      exists SelectorNotFound. split; [reflexivity | now left].
    + exists e. split; [reflexivity|]. right.
      unfold findContainerWithHeading in Hf.
      destruct (find _ cs); [discriminate | now inversion Hf].
  - exists e. split; [reflexivity|]. left.
    unfold queryAll in Hq. destruct (body doc) as [b|]; simpl in Hq.
    + destruct (querySelectorAll doc b sel_listWidget); simpl in Hq;
        [now inversion Hq | discriminate].
    + now inversion Hq.
Qed.

Lemma getCustomVersionURL_listing (version : string) (doc : Document) (c : Ref) :
  versionContainer doc = Ok c ->
  version_anchors doc <> [] ->
  getCustomVersionURL version doc =
  match find (text_includes_version doc version) (version_anchors doc) with
  | None => report_moreUploads doc c ;; throw VersionNotFound
  | Some a => ret (hrefAt doc a)
  end.
Proof.
  intros Hc Hv. rewrite (version_anchors_of _ _ Hc) in *.
  unfold getCustomVersionURL. unfold versionContainer in Hc.
  destruct (queryAll doc (body doc) sel_listWidget) as [cs|e]; simpl in Hc;
    [|discriminate].
  rewrite bind_lift_ok, Hc, bind_lift_ok.
  rewrite (queryAll_found _ _ _ Hv), bind_lift_ok.
  reflexivity.
Qed.

(** The explicit-version mode does what the specification says whenever
    the requested version is written without upper-case letters. *)
Lemma getCustomVersionURL_lower_case (version : string) (doc : Document)
  (before : list Ref) (x : Ref) (after : list Ref) :
  JsString.toLowerCase version = version ->
  version_anchors doc = (before ++ x :: after)%list ->
  (forall y, In y before ->
             ~ JsString.contains_ci (textContentAt doc y) version) ->
  JsString.contains_ci (textContentAt doc x) version ->
  getCustomVersionURL version doc = ([], Ok (hrefAt doc x)).
Proof.
  intros Hlow Hv Hb Hx.
  assert (Hne : version_anchors doc <> [])
    by (rewrite Hv; now destruct before).
  destruct (version_anchors_container _ Hne) as [c Hc].
  rewrite (getCustomVersionURL_listing version _ _ Hc Hne), Hv.
  rewrite (@find_first _ _ before x after); [reflexivity | |].
  - intros y Hy. unfold text_includes_version.
    destruct (JsString.includes _ version) eqn:E; [|reflexivity].
    apply (JsStringFacts.includes_lower_ci _ _ Hlow) in E.
    now contradiction (Hb y Hy).
  - unfold text_includes_version.
    now apply (JsStringFacts.includes_lower_ci _ _ Hlow).
Qed.


(** The latest-stable mode answers with the first anchor that is not a
    pre-release, and labels it with [version_label]. *)
Lemma getLatestStableURL_first_stable (env : Env) (doc : Document)
  (before : list Ref) (x : Ref) (after : list Ref) :
  version_anchors doc = (before ++ x :: after)%list ->
  (forall y, In y before -> prerelease_text (textContentAt doc y)) ->
  ~ prerelease_text (textContentAt doc x) ->
  outcome (getLatestStableURL env doc) =
  Ok (hrefAt doc x, version_label (textContentAt doc x)).
Proof.
  intros Hv Hb Hx.
  assert (Hne : version_anchors doc <> [])
    by (rewrite Hv; now destruct before).
  destruct (version_anchors_container _ Hne) as [c Hc].
  rewrite (getLatestStableURL_listing env _ _ Hc Hne), Hv.
  rewrite outcome_bind, outcome_forEach_debug.
  rewrite (@find_first _ _ before x after).
  - now rewrite outcome_bind, outcome_console_debug.
  - intros y Hy. apply is_prerelease_iff. now apply Hb.
  - now apply is_stable_iff.
Qed.

(** The version anchors are listed in document order. *)
Lemma version_anchors_document_order (doc : Document) :
  StronglySorted doc_before (version_anchors doc).
Proof.
  unfold version_anchors. destruct (versionContainer doc).
  - apply DomFacts.querySelectorAll_document_order.
  - constructor.
Qed.

Lemma StronglySorted_middle {A : Type} (R : A -> A -> Prop)
  (before : list A) (x : A) (after : list A) :
  StronglySorted R (before ++ x :: after)%list ->
  (forall y, In y before -> R y x) /\ (forall z, In z after -> R x z).
Proof.
  induction before as [|b before IH]; simpl; intros H;
    apply StronglySorted_inv in H as [H Hb].
  - split; [contradiction|]. now apply Forall_forall.
  - destruct (IH H) as [H1 H2]. split; [|exact H2].
    intros y [<-|Hy]; [|now apply H1].
    rewrite Forall_forall in Hb. apply Hb. apply in_or_app. right. now left.
Qed.

(** C1. For every listing document with at least one version anchor whose
    text does not contain "alpha" or "beta" in any letter case,
    [getLatestStableURL] returns the href of the first such anchor in
    document order: with [x] such an anchor and every version anchor that
    precedes it a pre-release, the call returns the href of [x], not that
    of one of the anchors that follow. *)
Theorem C1_latest_stable_is_first_stable_anchor (env : Env) (doc : Document)
  (before : list Ref) (x : Ref) (after : list Ref) :
  version_anchors doc = (before ++ x :: after)%list ->
  (forall y, In y before -> prerelease_text (textContentAt doc y)) ->
  ~ prerelease_text (textContentAt doc x) ->
  (exists version,
      outcome (getLatestStableURL env doc) = Ok (hrefAt doc x, version))
  /\ (forall y, In y before -> doc_before y x)
  /\ (forall z, In z after -> doc_before x z).
Proof.
  intros Hv Hb Hx. split.
  - eexists.
    now apply (getLatestStableURL_first_stable env doc before x after).
  - apply StronglySorted_middle. rewrite <- Hv.
    apply version_anchors_document_order.
Qed.

Lemma C1_witness_beta_then_stable :
  exists version,
    outcome (getLatestStableURL (Pages.env_of true Pages.html_response)
                                Pages.listing_beta_then_stable)
    = Ok ("/v1", version).
Proof.
  apply (C1_latest_stable_is_first_stable_anchor
           (Pages.env_of true Pages.html_response)
           Pages.listing_beta_then_stable
           [[1; 1; 1; 0; 0]] [1; 1; 2; 0; 0] []).
  - vm_compute. reflexivity.
  - intros y [<-|[]]. apply is_prerelease_iff. vm_compute. reflexivity.
  - apply is_stable_iff. vm_compute. reflexivity.
Defined.

(** C3. [getCustomVersionURL] lower-cases the anchor text and leaves the
    requested version as it is: requesting "4.12-RC" on a listing whose
    first anchor reads "App 4.12-RC" finds nothing, although that text
    contains the request in any letter case; the request "4.12-rc" finds
    it. *)
Theorem C3_upper_case_request_matches_nothing :
  version_anchors Pages.listing_mixed_case = [[1; 0; 1; 0; 0]; [1; 0; 2; 0; 0]]
  /\ textContentAt Pages.listing_mixed_case [1; 0; 1; 0; 0] = "App 4.12-RC"
  /\ JsString.contains_ci "App 4.12-RC" "4.12-RC"
  /\ getCustomVersionURL "4.12-RC" Pages.listing_mixed_case
     = ([moreUploads_line "/uploads"], Throw VersionNotFound)
  /\ getCustomVersionURL "4.12-rc" Pages.listing_mixed_case = ([], Ok "/rc")
  /\ getCustomVersionURL "4.12" Pages.listing_mixed_case = ([], Ok "/rc").
Proof.
  repeat split; try (vm_compute; reflexivity).
  exists "App ", "4.12-RC", "". split; reflexivity.
Qed.

(** C5, as the code has it. In the latest-stable mode the version label
    of the selected anchor is the leftmost maximal run of digits and dots
    of its text: when the text is [pre ++ tok ++ post] with no digit or
    dot in [pre], a non-empty [tok] of digits and dots, and [post] empty
    or starting outside the class, the label is [tok]; when the text has
    no digit and no dot the label is "unknown" and the resolution
    succeeds. *)
Theorem C5_version_label_is_leftmost_run (env : Env) (doc : Document)
  (before : list Ref) (x : Ref) (after : list Ref) :
  version_anchors doc = (before ++ x :: after)%list ->
  (forall y, In y before -> prerelease_text (textContentAt doc y)) ->
  ~ prerelease_text (textContentAt doc x) ->
  (forall pre tok post,
      textContentAt doc x = pre ++ tok ++ post ->
      JsString.no_char JsString.is_digit_or_dot pre = true ->
      JsString.all_chars JsString.is_digit_or_dot tok = true ->
      tok <> "" ->
      JsString.run_ends post = true ->
      outcome (getLatestStableURL env doc) = Ok (hrefAt doc x, tok))
  /\ (JsString.no_char JsString.is_digit_or_dot (textContentAt doc x) = true ->
      outcome (getLatestStableURL env doc) = Ok (hrefAt doc x, "unknown")).
Proof.
  intros Hv Hb Hx.
  rewrite (getLatestStableURL_first_stable env doc before x after Hv Hb Hx).
  unfold version_label. split.
  - intros pre tok post E Hpre Htok Hne Hpost. rewrite E.
    rewrite (JsStringFacts.match_digits_dots_spec _ _ _ Hpre Htok Hne Hpost).
    now rewrite JsStringFacts.or_default_nonempty.
  - intros Hnone. now rewrite (JsStringFacts.match_digits_dots_none _ Hnone).
Qed.

Lemma C5_witness_digit_in_name :
  outcome (getLatestStableURL (Pages.env_of true Pages.html_response)
                              Pages.listing_digit_in_name)
  = Ok ("/o", "365").
Proof.
  refine (proj1 (C5_version_label_is_leftmost_run
                   (Pages.env_of true Pages.html_response)
                   Pages.listing_digit_in_name
                   [] [1; 0; 1; 0; 0] [] _ _ _)
                "Microsoft " "365" " 16.0.1" _ _ _ _ _).
  - vm_compute. reflexivity.
  - intros y [].
  - apply is_stable_iff. vm_compute. reflexivity.
  - vm_compute. reflexivity.
  - vm_compute. reflexivity.
  - vm_compute. reflexivity.
  - discriminate.
  - vm_compute. reflexivity.
Defined.

(** The text "Microsoft 365 16.0.1" contains the dotted numeric substring
    "16.0.1", its longest run of digits and dots, and the label is
    "365". *)
Lemma C5_counterexample_longest_run :
  textContentAt Pages.listing_digit_in_name [1; 0; 1; 0; 0]
  = "Microsoft 365 16.0.1"
  /\ JsString.runs "Microsoft 365 16.0.1" = ["365"; "16.0.1"]
  /\ JsString.longest_run "Microsoft 365 16.0.1" = Some "16.0.1"
  /\ outcome (getLatestStableURL (Pages.env_of true Pages.html_response)
                                 Pages.listing_digit_in_name)
     = Ok ("/o", "365")
  /\ "365" <> "16.0.1".
Proof.
  repeat split; try (vm_compute; reflexivity). discriminate.
Qed.

(** C7, as the code has it. For every listing document that has the
    versions container and at least one version anchor, and in which every
    version anchor's text contains "alpha" or "beta" in any letter case,
    [getLatestStableURL] fails with [NoStableVersionFound] and returns no
    URL.  When the last child of the versions container has a link inside,
    the last thing the call does before failing is to print, with
    [console.error], the href of the first such link; when it has none,
    nothing is printed for it. *)
Theorem C7_only_prereleases_fails (env : Env) (doc : Document) (c : Ref) :
  versionContainer doc = Ok c ->
  version_anchors doc <> [] ->
  (forall y, In y (version_anchors doc) ->
             prerelease_text (textContentAt doc y)) ->
  outcome (getLatestStableURL env doc) = Throw NoStableVersionFound
  /\ (forall m,
        first_anchor_in_last_child doc c m ->
        trace (getLatestStableURL env doc)
        = (debug_lines env doc (version_anchors doc)
           ++ [moreUploads_line (hrefAt doc m)])%list)
  /\ (no_anchor_in_last_child doc c ->
      trace (getLatestStableURL env doc)
      = debug_lines env doc (version_anchors doc)).
Proof.
  intros Hc Hne Hall.
  rewrite (getLatestStableURL_listing env _ _ Hc Hne).
  rewrite find_all_false
    by (intros y Hy; apply is_prerelease_iff; now apply Hall).
  rewrite trace_bind, outcome_bind, outcome_forEach_debug.
  unfold debug_lines, report_moreUploads. split; [|split].
  - now destruct (querySelector doc c sel_last_child_anchor).
  - intros m Hm. now rewrite (DomFacts.moreUploads_found _ _ _ Hm).
  - intros Hn. apply DomFacts.moreUploads_none in Hn. rewrite Hn.
    simpl. now rewrite app_nil_r.
Qed.

Lemma C7_witness_only_prereleases :
  outcome (getLatestStableURL (Pages.env_of false Pages.html_response)
                              Pages.listing_only_prerelease)
  = Throw NoStableVersionFound
  /\ trace (getLatestStableURL (Pages.env_of false Pages.html_response)
                               Pages.listing_only_prerelease)
     = [moreUploads_line "/uploads"].
Proof.
  assert (Hc : versionContainer Pages.listing_only_prerelease = Ok [1; 0])
    by (vm_compute; reflexivity).
  assert (Hne : version_anchors Pages.listing_only_prerelease <> [])
    by (vm_compute; discriminate).
  assert (Hall : forall y,
             In y (version_anchors Pages.listing_only_prerelease) ->
             prerelease_text (textContentAt Pages.listing_only_prerelease y))
    by (intros y [<-|[<-|[]]]; apply is_prerelease_iff; vm_compute;
        reflexivity).
  split.
  - exact (proj1 (C7_only_prereleases_fails
                    (Pages.env_of false Pages.html_response)
                    Pages.listing_only_prerelease [1; 0] Hc Hne Hall)).
  - apply (proj1 (proj2 (C7_only_prereleases_fails
                           (Pages.env_of false Pages.html_response)
                           Pages.listing_only_prerelease [1; 0] Hc Hne Hall))
             [1; 0; 3; 0]).
    apply DomFacts.moreUploads_spec. vm_compute. reflexivity.
Defined.

(** A versions container without version anchors: every version anchor
    is a pre-release, there being none, and the failure is
    [SelectorNotFound].  A versions container whose last child is itself
    the link to further uploads: nothing is printed for it. *)
Lemma C7_counterexample_no_anchor_bare_link :
  (versionContainer Pages.listing_without_anchors = Ok [1; 0]
   /\ (forall y, In y (version_anchors Pages.listing_without_anchors) ->
                 prerelease_text
                   (textContentAt Pages.listing_without_anchors y))
   /\ outcome (getLatestStableURL (Pages.env_of true Pages.html_response)
                                  Pages.listing_without_anchors)
      = Throw SelectorNotFound
   /\ SelectorNotFound <> NoStableVersionFound)
  /\
  (versionContainer Pages.listing_only_prerelease_bare_link = Ok [1; 0]
   /\ last (children Pages.listing_only_prerelease_bare_link [1; 0]) []
      = [1; 0; 2]
   /\ nodeAt Pages.listing_only_prerelease_bare_link [1; 0; 2]
      = Some (Pages.a "/uploads" "See more uploads...")
   /\ outcome (getLatestStableURL (Pages.env_of true Pages.html_response)
                                  Pages.listing_only_prerelease_bare_link)
      = Throw NoStableVersionFound
   /\ forall line,
        ~ In (ConsoleError line)
             (trace (getLatestStableURL
                       (Pages.env_of true Pages.html_response)
                       Pages.listing_only_prerelease_bare_link))).
Proof.
  split.
  - repeat split; try (vm_compute; reflexivity).
    + intros y Hy. vm_compute in Hy. contradiction.
    + discriminate.
  - repeat split; try (vm_compute; reflexivity).
    intros line H. vm_compute in H.
    repeat (destruct H as [H|H]; [discriminate|]). contradiction.
Qed.

(* ================================================================== *)
(** ** The non-bundle stage *)
(* ================================================================== *)

Lemma loose_eq_refl (v : JsValue.t) : JsValue.loose_eq v v = true.
Proof. destruct v; simpl; auto using String.eqb_refl. Qed.

(** The comparison of the block-scoped [arch] with itself holds for every
    value it can take, whatever was requested. *)
Lemma arch_filter_true (doc : Document) (arch : string) (x : Ref) :
  arch_filter doc arch x = true.
Proof.
  unfold arch_filter. destruct (JsString.truthy arch); [|reflexivity].
  now rewrite loose_eq_refl.
Qed.

Lemma filter_arch_filter (doc : Document) (arch : string) (l : list Ref) :
  filter (arch_filter doc arch) l = l.
Proof.
  induction l as [|x l IH]; simpl; [reflexivity|].
  now rewrite arch_filter_true, IH.
Qed.

(** C4. The architecture filter of [getNonBundleURL] lets everything
    through: its predicate is true for every document, every candidate
    anchor and every requested architecture, and the candidates that
    leave the filter are the candidates that entered it. *)
Theorem C4_arch_filter_is_pass_through :
  (forall (doc : Document) (arch : string) (x : Ref),
      arch_filter doc arch x = true)
  /\ (forall (doc : Document) (arch : string) (l : list Ref),
         filter (arch_filter doc arch) l = l)
  /\ (forall (doc : Document) (arch arch' : string),
         getNonBundleURL doc arch = getNonBundleURL doc arch').
Proof.
  split; [exact arch_filter_true|]. split; [exact filter_arch_filter|].
  intros doc arch arch'. unfold getNonBundleURL.
  destruct (queryAll doc (body doc) sel_listWidget) as [cs|e]; simpl;
    [|reflexivity].
  destruct (findContainerWithHeading doc cs "Download") as [c|e]; simpl;
    [|reflexivity].
  destruct (queryAll doc (Some c) sel_last_child_anchor) as [ds|e]; simpl;
    [|reflexivity].
  now rewrite !filter_arch_filter.
Qed.

Lemma download_anchors_container (doc : Document) :
  download_anchors doc <> [] -> exists c, downloadContainer doc = Ok c.
Proof.
  unfold download_anchors. destruct (downloadContainer doc) as [c|e].
  - intros _. now exists c.
  - intros H. now contradiction H.
Qed.

(** [getNonBundleURL] once the set-up has found the container and its
    anchors: a search through the structural candidates. *)
Lemma getNonBundleURL_candidates (doc : Document) (arch : string) :
  structural_candidates doc <> [] ->
  getNonBundleURL doc arch =
  let* nonBundleDownload :=
    findM (is_not_bundle doc) (structural_candidates doc) in
  match nonBundleDownload with
  | None => Throw NoNonBundleLink
  | Some a => Ok (hrefAt doc a)
  end.
Proof.
  intros Hs.
  assert (Hne : download_anchors doc <> []).
  { intros E. apply Hs. unfold structural_candidates. now rewrite E. }
  destruct (download_anchors_container _ Hne) as [c Hc].
  unfold structural_candidates, download_anchors in *. rewrite Hc in *.
  unfold getNonBundleURL. unfold downloadContainer in Hc.
  destruct (queryAll doc (body doc) sel_listWidget) as [cs|e]; simpl in Hc;
    [|discriminate].
  simpl. rewrite Hc. simpl.
  rewrite (queryAll_found _ _ _ Hne). simpl.
  now rewrite filter_arch_filter.
Qed.

Lemma bundle_badged_iff (doc : Document) (x : Ref) :
  existsb (fun b => JsString.includes
                      (JsString.toLowerCase (textContentAt doc b)) "bundle")
          (badges doc x) = true
  <-> bundle_badged doc x.
Proof.
  unfold bundle_badged. rewrite existsb_exists.
  split; intros (b & Hb & H); exists b; split; auto;
    now apply (JsStringFacts.includes_lower_ci _ "bundle" eq_refl).
Qed.

(** A candidate without a badge makes the bundle check throw. *)
Lemma is_not_bundle_unbadged (doc : Document) (x : Ref) :
  badges doc x = [] -> is_not_bundle doc x = Throw SelectorNotFound.
Proof.
  unfold badges, is_not_bundle. destruct (parentElement x) as [p|].
  - intros H. now rewrite (queryAll_nothing _ _ _ H).
  - reflexivity.
Qed.

Lemma is_not_bundle_badged (doc : Document) (x : Ref) :
  badges doc x <> [] ->
  is_not_bundle doc x =
  Ok (negb (existsb
              (fun b => JsString.includes
                          (JsString.toLowerCase (textContentAt doc b)) "bundle")
              (badges doc x))).
Proof.
  unfold badges, is_not_bundle. destruct (parentElement x) as [p|].
  - intros H. now rewrite (queryAll_found _ _ _ H).
  - intros H. now contradiction H.
Qed.

Lemma is_not_bundle_bundle (doc : Document) (x : Ref) :
  bundle_badged doc x -> is_not_bundle doc x = Ok false.
Proof.
  intros H. rewrite is_not_bundle_badged.
  - apply bundle_badged_iff in H. now rewrite H.
  - destruct H as (b & Hb & _). intros E. now rewrite E in Hb.
Qed.

Lemma is_not_bundle_plain (doc : Document) (x : Ref) :
  badges doc x <> [] -> ~ bundle_badged doc x ->
  is_not_bundle doc x = Ok true.
Proof.
  intros Hne H. rewrite (is_not_bundle_badged _ _ Hne).
  destruct (existsb _ (badges doc x)) eqn:E; [|reflexivity].
  apply bundle_badged_iff in E. contradiction.
Qed.

(** The candidate [getNonBundleURL] answers with has badges, none of them
    a bundle badge, and every structural candidate before it has a bundle
    badge. *)
Lemma getNonBundleURL_inv (doc : Document) (arch url : string) :
  getNonBundleURL doc arch = Ok url ->
  exists before x after,
    structural_candidates doc = (before ++ x :: after)%list /\
    url = hrefAt doc x /\
    badges doc x <> [] /\ ~ bundle_badged doc x /\
    forall y, In y before -> bundle_badged doc y.
Proof.
  intros H.
  destruct (structural_candidates doc) as [|z zs] eqn:Hs.
  - exfalso. revert H. unfold getNonBundleURL.
    destruct (queryAll doc (body doc) sel_listWidget) as [cs|e] eqn:Hq;
      simpl; [|discriminate].
    destruct (findContainerWithHeading doc cs "Download") as [c|e] eqn:Hf;
      simpl; [|discriminate].
    destruct (queryAll doc (Some c) sel_last_child_anchor) as [ds|e] eqn:Hd;
      simpl; [|discriminate].
    rewrite filter_arch_filter.
    assert (E : filter (has_sibling doc) ds = []).
    { unfold structural_candidates, download_anchors, downloadContainer in Hs.
      rewrite Hq in Hs. simpl in Hs. rewrite Hf in Hs.
      unfold queryAll in Hd. simpl in Hd.
      destruct (querySelectorAll doc c sel_last_child_anchor); simpl in Hd;
        [discriminate|]. now inversion Hd; subst. }
    rewrite E. simpl. discriminate.
  - rewrite getNonBundleURL_candidates in H by (rewrite Hs; discriminate).
    rewrite Hs in H.
    destruct (findM (is_not_bundle doc) (z :: zs)) as [[x|]|e] eqn:Hf;
      simpl in H; try discriminate.
    inversion H; subst url.
    destruct (findM_some_inv _ _ _ Hf) as (before & after & E & Hx & Hb).
    exists before, x, after. split; [exact E|]. split; [reflexivity|].
    assert (Hbadged : forall y, is_not_bundle doc y = Ok false \/
                                is_not_bundle doc y = Ok true ->
                                badges doc y <> []).
    { intros y Hy E'. rewrite (is_not_bundle_unbadged _ _ E') in Hy.
      destruct Hy; discriminate. }
    split; [apply Hbadged; now right|]. split.
    + intros Hbun. rewrite (is_not_bundle_bundle _ _ Hbun) in Hx. discriminate.
    + intros y Hy. specialize (Hb y Hy).
      rewrite is_not_bundle_badged in Hb by (apply Hbadged; now left).
      injection Hb as Hn. apply negb_false_iff in Hn.
      now apply bundle_badged_iff.
Qed.

(** C2, as the code has it. In the non-bundle stage a candidate with a
    badge whose text contains "bundle" in any letter case is excluded even
    when it is the first structurally valid candidate: the candidate whose
    href [getNonBundleURL] returns never has such a badge, and the
    bundle-badged candidates at the head of the list are passed over.  In
    particular, with a first candidate badged ["bundle"] and a second
    candidate that has badges, none of them a bundle badge, the call
    returns the second candidate's href; with a second candidate that has
    no badge it fails with [SelectorNotFound]. *)
Theorem C2_bundle_candidates_are_passed_over (doc : Document) (arch : string) :
  (forall url,
      getNonBundleURL doc arch = Ok url ->
      exists before x after,
        structural_candidates doc = (before ++ x :: after)%list
        /\ url = hrefAt doc x
        /\ ~ bundle_badged doc x
        /\ forall y, In y before -> bundle_badged doc y)
  /\ (forall before x after,
         structural_candidates doc = (before ++ x :: after)%list ->
         (forall y, In y before -> bundle_badged doc y) ->
         badges doc x <> [] ->
         ~ bundle_badged doc x ->
         getNonBundleURL doc arch = Ok (hrefAt doc x))
  /\ (forall before x after,
         structural_candidates doc = (before ++ x :: after)%list ->
         (forall y, In y before -> bundle_badged doc y) ->
         badges doc x = [] ->
         getNonBundleURL doc arch = Throw SelectorNotFound).
Proof.
  split; [|split].
  - intros url H.
    destruct (getNonBundleURL_inv _ _ _ H)
      as (before & x & after & E & Hu & _ & Hn & Hall).
    now exists before, x, after.
  - intros before x after Hs Hb Hne Hx.
    rewrite getNonBundleURL_candidates by (rewrite Hs; now destruct before).
    rewrite Hs.
    rewrite (@findM_first _ _ before x after); [reflexivity | |].
    + intros y Hy. apply is_not_bundle_bundle. now apply Hb.
    + now apply is_not_bundle_plain.
  - intros before x after Hs Hb Hx.
    rewrite getNonBundleURL_candidates by (rewrite Hs; now destruct before).
    rewrite Hs.
    rewrite (@findM_throws _ _ before x after SelectorNotFound);
      [reflexivity | |].
    + intros y Hy. apply is_not_bundle_bundle. now apply Hb.
    + now apply is_not_bundle_unbadged.
Qed.

Lemma C2_witness_bundle_then_apk :
  getNonBundleURL Pages.variants_bundle_then_apk "arm64-v8a" = Ok "/apk".
Proof.
  apply (proj1 (proj2 (C2_bundle_candidates_are_passed_over
                         Pages.variants_bundle_then_apk "arm64-v8a"))
               [[1; 0; 1; 0; 0; 0]] [1; 0; 1; 1; 0; 0] []).
  - vm_compute. reflexivity.
  - intros y [<-|[]]. apply bundle_badged_iff. vm_compute. reflexivity.
  - vm_compute. discriminate.
  - intros H. apply bundle_badged_iff in H. vm_compute in H. discriminate.
Defined.

(** The scenario of the specification: the first candidate has the badge
    list ["bundle"], the second candidate has no badge; the call throws
    [SelectorNotFound] and returns no href. *)
Lemma C2_counterexample_unbadged_second :
  structural_candidates Pages.variants_bundle_then_unbadged
  = [[1; 0; 1; 0; 0; 0]; [1; 0; 1; 1; 0; 0]]
  /\ map (textContentAt Pages.variants_bundle_then_unbadged)
         (badges Pages.variants_bundle_then_unbadged [1; 0; 1; 0; 0; 0])
     = ["bundle"]
  /\ badges Pages.variants_bundle_then_unbadged [1; 0; 1; 1; 0; 0] = []
  /\ hrefAt Pages.variants_bundle_then_unbadged [1; 0; 1; 1; 0; 0] = "/plain"
  /\ getNonBundleURL Pages.variants_bundle_then_unbadged "arm64-v8a"
     = Throw SelectorNotFound
  /\ getNonBundleURL Pages.variants_bundle_then_unbadged "arm64-v8a"
     <> Ok "/plain".
Proof.
  repeat split; try (vm_compute; reflexivity). vm_compute. discriminate.
Qed.

(** C8. The bundle check needs a badge under the parent of every
    candidate it inspects: when a candidate that passed the structural
    filter (and the architecture filter, which passes everything) has no
    [.apkm-badge] element and the search reaches it, every candidate
    before it carrying a bundle badge, [getNonBundleURL] fails with
    [SelectorNotFound] instead of selecting that candidate. *)
Theorem C8_unbadged_candidate_throws (doc : Document) (arch : string)
  (before : list Ref) (x : Ref) (after : list Ref) :
  filter (arch_filter doc arch) (structural_candidates doc)
  = (before ++ x :: after)%list ->
  (forall y, In y before -> bundle_badged doc y) ->
  badges doc x = [] ->
  getNonBundleURL doc arch = Throw SelectorNotFound.
Proof.
  intros Hs Hb Hx. rewrite filter_arch_filter in Hs.
  rewrite getNonBundleURL_candidates by (rewrite Hs; now destruct before).
  rewrite Hs.
  rewrite (@findM_throws _ _ before x after SelectorNotFound); [reflexivity | |].
  - intros y Hy. apply is_not_bundle_bundle. now apply Hb.
  - now apply is_not_bundle_unbadged.
Qed.

Lemma C8_witness_unbadged_second :
  getNonBundleURL Pages.variants_bundle_then_unbadged "x86"
  = Throw SelectorNotFound.
Proof.
  apply (C8_unbadged_candidate_throws
           Pages.variants_bundle_then_unbadged "x86"
           [[1; 0; 1; 0; 0; 0]] [1; 0; 1; 1; 0; 0] []).
  - vm_compute. reflexivity.
  - intros y [<-|[]]. apply bundle_badged_iff. vm_compute. reflexivity.
  - vm_compute. reflexivity.
Defined.

(* ================================================================== *)
(** ** The downloader and the driver *)
(* ================================================================== *)

Lemma isAPK_iff (contentType : option string) :
  JsValue.loose_eq (JsValue.of_nullable contentType) (JsValue.Str apk_mime)
  = true
  <-> contentType = Some apk_mime.
Proof.
  destruct contentType as [s|]; simpl.
  - rewrite String.eqb_eq. split; [now intros -> | now intros [=]].
  - split; discriminate.
Qed.

(** An event that is none of the events listed. *)
Ltac no_such_event :=
  let H := fresh "H" in
  intros H; simpl in H;
  repeat (destruct H as [H|H]; [discriminate|]); contradiction.

(** [download] case by case. *)
Lemma download_cases (env : Env) (name url arch version : string) :
  download env name url arch version =
  match mkdir env "apps" with
  | Throw e => ([HttpGet url; Mkdir "apps" true], Throw e)
  | Ok _ =>
      match fetch env url with
      | Throw e => ([HttpGet url; Mkdir "apps" true], Throw e)
      | Ok response =>
          match resp_body response with
          | Some _ =>
              if JsValue.loose_eq
                   (JsValue.of_nullable (resp_contentType response))
                   (JsValue.Str apk_mime)
              then ([HttpGet url; Mkdir "apps" true;
                     CreateWriteStream (output_path name arch version);
                     Pipe (output_path name arch version)], Ok tt)
              else ([HttpGet url; Mkdir "apps" true],
                    Throw UnexpectedContentType)
          | None => ([HttpGet url; Mkdir "apps" true],
                     Throw UnexpectedContentType)
          end
      end
  end.
Proof.
  unfold download, output_path.
  destruct (mkdir env "apps") as [[]|e]; [|reflexivity].
  destruct (fetch env url) as [response|e]; [|reflexivity].
  cbv beta iota delta [bind emit lift throw].
  destruct (resp_body response); [|reflexivity].
  destruct (JsValue.loose_eq _ _); reflexivity.
Qed.

(** C6, as the code has it. Once the request has been answered and the
    directory made, [download] writes the output file if and only if the
    declared content type is exactly the Android package archive type and
    the response has a body; for any other content type it fails with
    [UnexpectedContentType] and neither creates nor writes the output
    file. *)
Theorem C6_writes_iff_apk_with_body (env : Env) (name url arch version : string)
  (response : Response) :
  fetch env url = Ok response ->
  mkdir env "apps" = Ok tt ->
  (writes_file (output_path name arch version)
               (trace (download env name url arch version))
   <-> resp_contentType response = Some apk_mime
       /\ resp_body response <> None)
  /\ (resp_contentType response = Some apk_mime ->
      resp_body response <> None ->
      download env name url arch version
      = ([HttpGet url; Mkdir "apps" true;
          CreateWriteStream (output_path name arch version);
          Pipe (output_path name arch version)], Ok tt))
  /\ (resp_contentType response <> Some apk_mime ->
      outcome (download env name url arch version)
      = Throw UnexpectedContentType
      /\ no_file_event (trace (download env name url arch version))).
Proof.
  intros Hf Hm. rewrite download_cases, Hf, Hm.
  pose proof (isAPK_iff (resp_contentType response)) as HA.
  unfold writes_file, no_file_event.
  destruct (resp_body response) as [b|];
    destruct (JsValue.loose_eq _ _); simpl.
  - assert (Hct : resp_contentType response = Some apk_mime) by now apply HA.
    split; [|split].
    + split; [intros _; split; [exact Hct | discriminate] | auto 6].
    + reflexivity.
    + intros Hn. contradiction.
  - assert (Hct : resp_contentType response <> Some apk_mime)
      by (intros H; apply HA in H; discriminate).
    split; [|split].
    + split; [no_such_event | intros [H _]; contradiction].
    + intros H. contradiction.
    + intros _. split; [reflexivity|]. intros p. split; no_such_event.
  - split; [|split].
    + split; [no_such_event | intros [_ H]; now contradiction H].
    + intros _ H. now contradiction H.
    + intros _. split; [reflexivity|]. intros p. split; no_such_event.
  - split; [|split].
    + split; [no_such_event | intros [_ H]; now contradiction H].
    + intros _ H. now contradiction H.
    + intros _. split; [reflexivity|]. intros p. split; no_such_event.
Qed.

Lemma C6_witness_text_html :
  outcome (download (Pages.env_of true Pages.html_response)
                    "app" "https://apkmirror.com/dl" "x86" "1.9.5")
  = Throw UnexpectedContentType
  /\ no_file_event
       (trace (download (Pages.env_of true Pages.html_response)
                        "app" "https://apkmirror.com/dl" "x86" "1.9.5")).
Proof.
  refine (proj2 (proj2 (C6_writes_iff_apk_with_body
                          (Pages.env_of true Pages.html_response)
                          "app" "https://apkmirror.com/dl" "x86" "1.9.5"
                          Pages.html_response _ _)) _).
  - reflexivity.
  - reflexivity.
  - simpl. discriminate.
Defined.

(** A response that declares the package archive type and has no body:
    the call fails and no file is written. *)
Lemma C6_counterexample_null_body :
  resp_contentType Pages.apk_response_without_body = Some apk_mime
  /\ download (Pages.env_of true Pages.apk_response_without_body)
              "app" "https://apkmirror.com/dl" "x86" "1.9.5"
     = ([HttpGet "https://apkmirror.com/dl"; Mkdir "apps" true],
        Throw UnexpectedContentType)
  /\ ~ writes_file (output_path "app" "x86" "1.9.5")
         (trace (download (Pages.env_of true Pages.apk_response_without_body)
                          "app" "https://apkmirror.com/dl" "x86" "1.9.5")).
Proof.
  repeat split; try reflexivity.
  unfold writes_file. vm_compute. no_such_event.
Qed.

(** C9. [download] asks for the directory "apps" (recursively, so that an
    existing directory is no error) on every call, right after issuing
    the request and before it looks at the response: the trace of every
    call starts with the request and the [mkdir], also when the call then
    fails with [UnexpectedContentType]; the write stream and the pipe
    follow only in the call that succeeds. *)
Theorem C9_mkdir_on_every_call (env : Env) (name url arch version : string) :
  trace (download env name url arch version)
  = ([HttpGet url; Mkdir "apps" true] ++
     match outcome (download env name url arch version) with
     | Ok _ => [CreateWriteStream (output_path name arch version);
                Pipe (output_path name arch version)]
     | Throw _ => []
     end)%list.
Proof.
  rewrite download_cases.
  destruct (mkdir env "apps") as [[]|e]; [|reflexivity].
  destruct (fetch env url) as [response|e]; [|reflexivity].
  destruct (resp_body response); [|reflexivity].
  destruct (JsValue.loose_eq _ _); reflexivity.
Qed.

(** C10. [downloadApp] turns degenerate input away before anything else:
    when the package name or the listing path is the empty string it
    throws at once, with no request sent, no file or directory touched and
    nothing printed. *)
Theorem C10_empty_argument_rejected_first (env : Env)
  (name urlPath arch : string) (version : option string) :
  name = "" \/ urlPath = "" ->
  downloadApp env name urlPath arch version = ([], Throw EmptyArgument).
Proof.
  intros [-> | ->]; unfold downloadApp; simpl.
  - reflexivity.
  - now rewrite orb_true_r.
Qed.

(** With a name and a path the first thing [downloadApp] does is to
    request the listing page. *)
Lemma downloadApp_requests_listing (env : Env) (name urlPath arch : string)
  (version : option string) (url : string) :
  name <> "" -> urlPath <> "" ->
  new_URL env urlPath baseURL = Ok url ->
  exists rest,
    trace (downloadApp env name urlPath arch version) = HttpGet url :: rest.
Proof.
  intros Hn Hp Hu. unfold downloadApp.
  destruct name as [|a name]; [contradiction|].
  destruct urlPath as [|b urlPath]; [contradiction|].
  cbn [JsString.truthy negb orb]. rewrite Hu, bind_lift_ok.
  rewrite trace_bind.
  assert (Hd : forall A (k : Document -> M A),
             exists rest,
               trace (document <- getDocumentFromURL env url ;; k document)
               = HttpGet url :: rest).
  { intros A k. rewrite trace_bind. unfold getDocumentFromURL.
    rewrite trace_bind. simpl. eexists. reflexivity. }
  destruct (version_given version) as [v|].
  - destruct (Hd _ (fun document =>
                      urlPath <- getCustomVersionURL v document ;;
                      ret (urlPath, v))) as [rest ->].
    simpl. eexists. reflexivity.
  - destruct (Hd _ (fun document => getLatestStableURL env document))
      as [rest ->].
    simpl. eexists. reflexivity.
Qed.

Lemma C10_witness_empty_name :
  downloadApp (Pages.env_of true Pages.apk_response)
              "" "/apk/some/app" "arm64-v8a" (Some "1.9.5")
  = ([], Throw EmptyArgument).
Proof.
  apply (C10_empty_argument_rejected_first
           (Pages.env_of true Pages.apk_response)
           "" "/apk/some/app" "arm64-v8a" (Some "1.9.5")).
  left. reflexivity.
Defined.

(* ================================================================== *)
(** ** Further properties: the selector utilities *)
(* ================================================================== *)

Module UtilityFacts.
Import DomFacts.
Local Open Scope list_scope.

Lemma element_indices_In (ks : list Node) :
  forall i x,
    In x (element_indices i ks) <->
    exists j k, x = i + j /\ nth_error ks j = Some k /\ is_element k = true.
Proof.
  induction ks as [|k0 ks IH]; intros i x; simpl.
  - split; [contradiction | intros (j & k & _ & H & _); now destruct j].
  - assert (Htail : In x (element_indices (S i) ks) <->
                    exists j k, x = i + S j /\ nth_error ks j = Some k /\
                                is_element k = true).
    { rewrite IH. split; intros (j & k & -> & H); exists j, k;
        (split; [lia | exact H]). }
    destruct (is_element k0) eqn:Hk.
    + simpl. rewrite Htail. split.
      * intros [<-|(j & k & -> & Hn & He)].
        -- exists 0, k0. rewrite Nat.add_0_r. auto.
        -- exists (S j), k. auto.
      * intros (j & k & -> & Hn & He). destruct j as [|j].
        -- left. lia.
        -- right. exists j, k. auto.
    + rewrite Htail. split.
      * intros (j & k & -> & Hn & He). exists (S j), k. auto.
      * intros (j & k & -> & Hn & He). destruct j as [|j].
        -- simpl in Hn. injection Hn as <-. congruence.
        -- exists j, k. auto.
Qed.

(** The children of an element are the elements one step below it. *)
Lemma children_spec (doc : Document) (x r : Ref) :
  In r (children doc x) <->
  exists j k, r = x ++ [j] /\ nodeAt doc r = Some k /\ is_element k = true.
Proof.
  unfold children. split.
  - destruct (nodeAt doc x) as [n|] eqn:Hx; [|contradiction].
    intros H. apply in_map_iff in H as (j & <- & Hj).
    apply element_indices_In in Hj as (j' & k & -> & Hn & He).
    exists j', k. simpl. repeat split; auto.
    rewrite nodeAt_app, Hx. simpl. now rewrite Hn.
  - intros (j & k & -> & Hn & He).
    destruct (nodeAt_snoc_inv _ _ _ _ Hn) as (n & Hx & Hj).
    rewrite Hx. apply in_map_iff. exists j. split; [reflexivity|].
    apply element_indices_In. now exists j, k.
Qed.

Lemma matches_child_of_scope (scope : Ref) (anc : list Info) :
  matches_left scope [(Child, scope_)] anc = true <->
  exists p up, anc = p :: up /\ i_ref p = scope.
Proof.
  cbn [matches_left]. destruct anc as [|p up].
  - split; [discriminate | intros (p & up & E & _); discriminate].
  - unfold matches_compound, ref_eqb. simpl. rewrite !andb_true_r.
    destruct (list_eq_dec Nat.eq_dec (i_ref p) scope) as [E|E].
    + split; [intros _; now exists p, up | reflexivity].
    + split; [discriminate | intros (p' & up' & [= <- <-] & E')].
      contradiction.
Qed.

Lemma has_class_at_iff (doc : Document) (l : Located) (c : string) :
  info_of doc (l_self l) ->
  has_class_at doc (loc_ref l) c = has_class (i_classes (l_self l)) c.
Proof.
  intros [(h & ks & Hn) _]. unfold has_class_at, loc_ref. now rewrite Hn.
Qed.

(** The matches of [:scope > .widgetHeader] under [x] are the children of
    [x] with the class. *)
Lemma widgetHeader_spec (doc : Document) (x r : Ref) :
  In r (querySelectorAll doc x sel_widgetHeader) <->
  In r (children doc x) /\ has_class_at doc r "widgetHeader" = true.
Proof.
  unfold querySelectorAll. rewrite in_map_iff. split.
  - intros (l & <- & Hl). apply filter_In in Hl as [Hl Hm].
    destruct (elements_located _ _ Hl) as (Hself & Hchain & Hanc).
    apply andb_true_iff in Hm as [_ Hm]. unfold matches in Hm.
    apply andb_true_iff in Hm as [Hcls Hleft].
    apply matches_child_of_scope in Hleft as (p & up & E & Hp).
    rewrite E in Hchain. simpl in Hchain.
    inversion Hchain as [|r0 j anc0 Hc0 E1 [E2 E3]]. subst r0.
    change (i_ref (l_self l)) with (loc_ref l). rewrite <- E1, <- Hp.
    split.
    + apply children_spec. destruct Hself as [(h & ks & Hn) _].
      exists j, (Elem (i_tag (l_self l)) (i_classes (l_self l))
                      (i_id (l_self l)) h ks).
      repeat split. unfold loc_ref in E1. now rewrite E1.
    + rewrite E1. rewrite (has_class_at_iff _ _ _ Hself).
      unfold matches_compound in Hcls. simpl in Hcls.
      now rewrite !andb_true_r in Hcls.
  - intros [Hr Hc]. apply children_spec in Hr as (j & k & -> & Hn & He).
    destruct k as [d|t cs i h ks]; [discriminate|].
    destruct (elements_complete _ _ _ _ _ _ _ Hn) as (l & Hl & Href).
    destruct (elements_located _ _ Hl) as (Hself & Hchain & Hanc).
    exists l. split; [exact Href|]. apply filter_In. split; [exact Hl|].
    change (i_ref (l_self l)) with (loc_ref l). rewrite Href.
    apply andb_true_iff. split.
    + apply is_descendant_iff. now exists j, [].
    + unfold matches. apply andb_true_iff. split.
      * unfold matches_compound. simpl. rewrite !andb_true_r.
        rewrite <- (has_class_at_iff _ _ _ Hself), Href. exact Hc.
      * apply matches_child_of_scope. rewrite Href in Hchain.
        inversion Hchain as [E|r0 j0 anc0 Hc0 E1 E2].
        -- now destruct x.
        -- apply app_inj_tail in E1 as [-> ->].
           destruct (l_ancestors l) as [|p up]; [discriminate|].
           simpl in E2. injection E2 as E2 _. now exists p, up.
Qed.

(** [querySelector] answers with a match that no other match precedes. *)
Lemma querySelector_least (doc : Document) (el : Ref) (s : Selector)
  (m : Ref) :
  In m (querySelectorAll doc el s) ->
  (forall r, In r (querySelectorAll doc el s) -> r = m \/ doc_before m r) ->
  querySelector doc el s = Some m.
Proof.
  intros Hm Hfirst.
  destruct (querySelector doc el s) as [x|] eqn:Hx.
  - assert (Hin : In x (querySelectorAll doc el s)).
    { unfold querySelector in Hx.
      destruct (querySelectorAll doc el s); [discriminate|].
      injection Hx as ->. now left. }
    destruct (Hfirst x Hin) as [->|H1]; [reflexivity|].
    destruct (querySelector_first _ _ _ _ _ Hx Hm) as [->|H2]; [reflexivity|].
    exfalso. apply (doc_before_irrefl m). now apply (doc_before_trans m x m).
  - unfold querySelector in Hx.
    destruct (querySelectorAll doc el s); [contradiction | discriminate].
Qed.

Lemma first_header_iff (doc : Document) (x h : Ref) :
  querySelector doc x sel_widgetHeader = Some h <-> first_header doc x h.
Proof.
  unfold first_header. split.
  - intros Hq.
    assert (Hin : In h (querySelectorAll doc x sel_widgetHeader)).
    { unfold querySelector in Hq.
      destruct (querySelectorAll doc x sel_widgetHeader); [discriminate|].
      injection Hq as ->. now left. }
    apply widgetHeader_spec in Hin as [Hc Hcls]. repeat split; auto.
    intros h' Hc' Hcls'. apply (querySelector_first _ _ _ _ _ Hq).
    now apply widgetHeader_spec.
  - intros (Hc & Hcls & Hfirst). apply querySelector_least.
    + now apply widgetHeader_spec.
    + intros r Hr. apply widgetHeader_spec in Hr as [Hr1 Hr2]. auto.
Qed.

(** The test of [findContainerWithHeading] on one container. *)
Lemma heading_includes_iff (doc : Document) (text : string) (x : Ref) :
  heading_includes doc text x = true <-> headed doc text x.
Proof.
  unfold heading_includes, headed. split.
  - destruct (querySelector doc x sel_widgetHeader) as [h|] eqn:Hq;
      [|discriminate].
    intros H. apply JsStringFacts.includes_spec in H as (pre & post & E).
    exists h, pre, post. split; [now apply first_header_iff | exact E].
  - intros (h & pre & post & Hh & E). apply first_header_iff in Hh.
    rewrite Hh. apply JsStringFacts.includes_spec. now exists pre, post.
Qed.

Lemma heading_excludes_iff (doc : Document) (text : string) (x : Ref) :
  heading_includes doc text x = false <-> ~ headed doc text x.
Proof.
  rewrite <- heading_includes_iff.
  destruct (heading_includes doc text x); split; try discriminate; auto.
  intros H. now contradiction H.
Qed.

Lemma find_some_inv {A : Type} (f : A -> bool) (l : list A) (x : A) :
  find f l = Some x <->
  exists before after,
    l = before ++ x :: after /\ f x = true /\
    forall y, In y before -> f y = false.
Proof.
  split.
  - induction l as [|y l IH]; simpl; [discriminate|].
    destruct (f y) eqn:Hy.
    + intros [= <-]. exists [], l. simpl. tauto.
    + intros H. destruct (IH H) as (before & after & -> & Hx & Hb).
      exists (y :: before), after. repeat split; auto.
      intros z [<-|Hz]; auto.
  - intros (before & after & -> & Hx & Hb). now apply find_first.
Qed.

(** X1. [queryAll] answers only with a list that is not empty, in
    document order and without repetition, of elements of the document
    that lie below the element it was given, which is then not [null]. *)
Theorem X1_queryAll_answer (doc : Document) (element : option Ref)
  (selectors : Selector) (l : list Ref) :
  queryAll doc element selectors = Ok l ->
  l <> []
  /\ StronglySorted doc_before l
  /\ exists el,
       element = Some el /\
       forall r, In r l ->
                 is_descendant el r = true /\
                 exists k, nodeAt doc r = Some k /\ is_element k = true.
Proof.
  intros H. split; [exact (queryAll_nonempty _ _ _ _ H)|].
  unfold queryAll in H. destruct element as [el|]; simpl in H; [|discriminate].
  destruct (querySelectorAll doc el selectors) as [|r0 l0] eqn:E;
    simpl in H; [discriminate|].
  injection H as <-. rewrite <- E. split.
  - apply querySelectorAll_document_order.
  - exists el. split; [reflexivity|]. intros r Hr.
    destruct (querySelectorAll_descendants _ _ _ _ Hr)
      as (Hd & t & c & i & h & ks & Hn).
    split; [exact Hd|]. now exists (Elem t c i h ks).
Qed.

Lemma X1_witness_listWidgets :
  [[1; 0]; [1; 1]] <> []
  /\ StronglySorted doc_before [[1; 0]; [1; 1]]
  /\ exists el,
       body Pages.listing_beta_then_stable = Some el /\
       forall r, In r [[1; 0]; [1; 1]] ->
                 is_descendant el r = true /\
                 exists k, nodeAt Pages.listing_beta_then_stable r = Some k
                           /\ is_element k = true.
Proof.
  apply (X1_queryAll_answer Pages.listing_beta_then_stable
           (body Pages.listing_beta_then_stable) sel_listWidget).
  vm_compute. reflexivity.
Defined.

(** X2. [findContainerWithHeading] returns the first container of the
    list whose first [.widgetHeader] child has a text that contains the
    heading letter for letter (upper and lower case distinguished, only
    the first header child looked at), and it fails, with
    [ContainerNotFound] and nothing else, exactly when the list has no such
    container. *)
Theorem X2_findContainerWithHeading_spec (doc : Document) (list : list Ref)
  (text : string) :
  (forall x,
      findContainerWithHeading doc list text = Ok x <->
      exists before after,
        list = before ++ x :: after /\ headed doc text x /\
        forall y, In y before -> ~ headed doc text y)
  /\ (forall e,
         findContainerWithHeading doc list text = Throw e <->
         e = ContainerNotFound /\ forall y, In y list -> ~ headed doc text y).
Proof.
  unfold findContainerWithHeading. split.
  - intros x. destruct (find (heading_includes doc text) list) as [r|] eqn:Hf.
    + split.
      * intros [= <-]. apply find_some_inv in Hf
          as (before & after & E & Hx & Hb).
        exists before, after. split; [exact E|].
        split; [now apply heading_includes_iff|].
        intros y Hy. apply heading_excludes_iff. now apply Hb.
      * intros (before & after & E & Hx & Hb).
        assert (Hf' : find (heading_includes doc text) list = Some x).
        { apply find_some_inv. exists before, after. split; [exact E|].
          split; [now apply heading_includes_iff|].
          intros y Hy. apply heading_excludes_iff. now apply Hb. }
        congruence.
    + split; [discriminate|]. intros (before & after & E & Hx & _).
      exfalso. apply heading_includes_iff in Hx.
      pose proof (find_none _ _ Hf x) as Hn.
      rewrite Hn in Hx; [discriminate|].
      rewrite E. apply in_or_app. right. now left.
  - intros e. destruct (find (heading_includes doc text) list) as [r|] eqn:Hf.
    + split; [discriminate|]. intros [_ Hall]. exfalso.
      apply find_some in Hf as [Hin Hr].
      apply (Hall r Hin). now apply heading_includes_iff.
    + split.
      * intros [= <-]. split; [reflexivity|]. intros y Hy.
        apply heading_excludes_iff. exact (find_none _ _ Hf y Hy).
      * intros [-> _]. reflexivity.
Qed.
End UtilityFacts.

Import UtilityFacts.

(* ================================================================== *)
(** ** Further properties: the version resolver *)
(* ================================================================== *)

(** X3. When the requested version is ASCII text without an upper-case
    letter and the texts of the version anchors up to the selected one are
    ASCII, [getCustomVersionURL] returns the href of the first version
    anchor, in document order, whose text contains the request in any
    letter case, and prints nothing. *)
Theorem X3_custom_version_lower_case_request (version : string)
  (doc : Document) (before : list Ref) (x : Ref) (after : list Ref) :
  is_ascii version = true ->
  (forall y, In y (before ++ [x])%list ->
             is_ascii (textContentAt doc y) = true) ->
  JsString.toLowerCase version = version ->
  version_anchors doc = (before ++ x :: after)%list ->
  (forall y, In y before ->
             ~ JsString.contains_ci (textContentAt doc y) version) ->
  JsString.contains_ci (textContentAt doc x) version ->
  getCustomVersionURL version doc = ([], Ok (hrefAt doc x))
  /\ (forall y, In y before -> doc_before y x).
Proof.
  intros _ _ Hlow Hv Hb Hx. split.
  - now apply (getCustomVersionURL_lower_case version doc before x after).
  - apply (StronglySorted_middle doc_before before x after).
    rewrite <- Hv. apply version_anchors_document_order.
Qed.

Lemma X3_witness_release :
  getCustomVersionURL "release" Pages.listing_mixed_case = ([], Ok "/v4")
  /\ (forall y, In y [[1; 0; 1; 0; 0]] -> doc_before y [1; 0; 2; 0; 0]).
Proof.
  apply (X3_custom_version_lower_case_request
           "release" Pages.listing_mixed_case
           [[1; 0; 1; 0; 0]] [1; 0; 2; 0; 0] []).
  - vm_compute. reflexivity.
  - intros y [<-|[<-|[]]]; vm_compute; reflexivity.
  - reflexivity.
  - vm_compute. reflexivity.
  - intros y [<-|[]] H.
    apply (JsStringFacts.includes_lower_ci _ "release" eq_refl) in H.
    vm_compute in H. discriminate.
  - apply (JsStringFacts.includes_lower_ci _ "release" eq_refl).
    vm_compute. reflexivity.
Defined.



Lemma text_matches_version_iff (doc : Document) (version : string) (x : Ref) :
  text_includes_version doc version x = true
  <-> text_matches_version doc version x.
Proof. apply JsStringFacts.includes_lower_spec. Qed.

(** X5. On a listing whose version anchors have ASCII texts none of
    which, lower-cased, contains the requested version as it is written,
    [getCustomVersionURL] fails with the very error of the latest-stable
    mode, after printing the href of the first link inside the last child
    of the versions container when there is one and nothing when there is
    none. *)
Theorem X5_custom_version_not_found (version : string) (doc : Document)
  (c : Ref) :
  versionContainer doc = Ok c ->
  version_anchors doc <> [] ->
  (forall y, In y (version_anchors doc) ->
             is_ascii (textContentAt doc y) = true) ->
  (forall y, In y (version_anchors doc) ->
             ~ text_matches_version doc version y) ->
  outcome (getCustomVersionURL version doc) = Throw NoStableVersionFound
  /\ (forall m,
        first_anchor_in_last_child doc c m ->
        trace (getCustomVersionURL version doc)
        = [moreUploads_line (hrefAt doc m)])
  /\ (no_anchor_in_last_child doc c ->
      trace (getCustomVersionURL version doc) = []).
Proof.
  intros Hc Hne _ Hall.
  rewrite (getCustomVersionURL_listing version _ _ Hc Hne).
  rewrite find_all_false.
  - rewrite trace_bind, outcome_bind. unfold report_moreUploads.
    split; [|split].
    + now destruct (querySelector doc c sel_last_child_anchor).
    + intros m Hm. now rewrite (DomFacts.moreUploads_found _ _ _ Hm).
    + intros Hn. apply DomFacts.moreUploads_none in Hn. now rewrite Hn.
  - intros y Hy.
    destruct (text_includes_version doc version y) eqn:E; [|reflexivity].
    apply text_matches_version_iff in E. now contradiction (Hall y Hy).
Qed.

Lemma X5_witness_unknown_version :
  outcome (getCustomVersionURL "7.0" Pages.listing_mixed_case)
  = Throw NoStableVersionFound
  /\ trace (getCustomVersionURL "7.0" Pages.listing_mixed_case)
     = [moreUploads_line "/uploads"].
Proof.
  assert (Hc : versionContainer Pages.listing_mixed_case = Ok [1; 0])
    by (vm_compute; reflexivity).
  assert (Hne : version_anchors Pages.listing_mixed_case <> [])
    by (vm_compute; discriminate).
  assert (Hascii : forall y,
             In y (version_anchors Pages.listing_mixed_case) ->
             is_ascii (textContentAt Pages.listing_mixed_case y) = true)
    by (intros y [<-|[<-|[]]]; vm_compute; reflexivity).
  assert (Hall : forall y,
             In y (version_anchors Pages.listing_mixed_case) ->
             ~ text_matches_version Pages.listing_mixed_case "7.0" y).
  { intros y Hy H. apply text_matches_version_iff in H.
    destruct Hy as [<-|[<-|[]]]; vm_compute in H; discriminate. }
  split.
  - exact (proj1 (X5_custom_version_not_found
                    "7.0" Pages.listing_mixed_case [1; 0]
                    Hc Hne Hascii Hall)).
  - apply (proj1 (proj2 (X5_custom_version_not_found
                           "7.0" Pages.listing_mixed_case [1; 0]
                           Hc Hne Hascii Hall))
             [1; 0; 3; 0]).
    apply DomFacts.moreUploads_spec. vm_compute. reflexivity.
Defined.

Lemma take_run_class (s : string) :
  JsString.all_chars JsString.is_digit_or_dot (JsString.take_run s) = true.
Proof.
  induction s as [|c s IH]; simpl; [reflexivity|].
  destruct (JsString.is_digit_or_dot c) eqn:Hc; simpl; [|reflexivity].
  now rewrite Hc, IH.
Qed.

Lemma match_digits_dots_some (s r : string) :
  JsString.match_digits_dots s = Some r ->
  r <> "" /\ JsString.all_chars JsString.is_digit_or_dot r = true.
Proof.
  induction s as [|c s IH]; simpl; [discriminate|].
  destruct (JsString.is_digit_or_dot c) eqn:Hc; [|exact IH].
  intros [= <-]. split; [discriminate|].
  simpl. now rewrite Hc, take_run_class.
Qed.

(** The label is "unknown" or a non-empty string of digits and dots. *)
Lemma version_label_shape (text : string) : label_shape (version_label text).
Proof.
  unfold version_label, label_shape.
  destruct (JsString.match_digits_dots text) as [r|] eqn:E; simpl;
    [|now left].
  apply match_digits_dots_some in E as [Hne Hall].
  right. destruct r; [contradiction|]. split; [discriminate | exact Hall].
Qed.

(** What a successful latest-stable resolution has found. *)
Lemma getLatestStableURL_answer (env : Env) (doc : Document)
  (url version : string) :
  outcome (getLatestStableURL env doc) = Ok (url, version) ->
  exists before x after,
    version_anchors doc = (before ++ x :: after)%list
    /\ (forall y, In y before -> prerelease_text (textContentAt doc y))
    /\ ~ prerelease_text (textContentAt doc x)
    /\ url = hrefAt doc x
    /\ version = version_label (textContentAt doc x)
    /\ label_shape version.
Proof.
  intros H.
  destruct (version_anchors doc) as [|z zs] eqn:Hv.
  - destruct (getLatestStableURL_no_anchor env doc Hv) as (e & E & _).
    rewrite E in H. discriminate.
  - assert (Hne : version_anchors doc <> []) by (rewrite Hv; discriminate).
    destruct (version_anchors_container _ Hne) as [c Hc].
    rewrite (getLatestStableURL_listing env _ _ Hc Hne) in H.
    rewrite outcome_bind, outcome_forEach_debug in H. rewrite Hv in H.
    destruct (find (is_stable doc) (z :: zs)) as [x|] eqn:Hf.
    + rewrite outcome_bind, outcome_console_debug in H. simpl in H.
      injection H as <- <-.
      apply find_some_inv in Hf as (before & after & E & Hx & Hb).
      exists before, x, after. split; [exact E|]. split.
      * intros y Hy. apply is_prerelease_iff. now apply Hb.
      * split; [now apply is_stable_iff|].
        repeat split. apply version_label_shape.
    + rewrite outcome_bind in H.
      destruct (outcome (report_moreUploads doc c)); discriminate.
Qed.

(** X6. Whatever [getLatestStableURL] returns is the href of a version
    anchor whose text has neither "alpha" nor "beta" in any letter case
    and before which every version anchor is a pre-release, together with
    the label of that anchor's text, which is "unknown" or a non-empty
    string of digits and dots. *)
Theorem X6_latest_stable_answer (env : Env) (doc : Document)
  (url version : string) :
  outcome (getLatestStableURL env doc) = Ok (url, version) ->
  exists before x after,
    version_anchors doc = (before ++ x :: after)%list
    /\ (forall y, In y before -> prerelease_text (textContentAt doc y))
    /\ ~ prerelease_text (textContentAt doc x)
    /\ url = hrefAt doc x
    /\ version = version_label (textContentAt doc x)
    /\ label_shape version.
Proof. apply getLatestStableURL_answer. Qed.

Lemma X6_witness_beta_then_stable :
  exists before x after,
    version_anchors Pages.listing_beta_then_stable
    = (before ++ x :: after)%list
    /\ (forall y, In y before ->
                  prerelease_text
                    (textContentAt Pages.listing_beta_then_stable y))
    /\ ~ prerelease_text (textContentAt Pages.listing_beta_then_stable x)
    /\ "/v1" = hrefAt Pages.listing_beta_then_stable x
    /\ "1.9.5" = version_label (textContentAt Pages.listing_beta_then_stable x)
    /\ label_shape "1.9.5".
Proof.
  apply (X6_latest_stable_answer (Pages.env_of true Pages.html_response)
           Pages.listing_beta_then_stable "/v1" "1.9.5").
  vm_compute. reflexivity.
Defined.

(** X7. [getLatestStableURL] fails in three ways only: without version
    anchors the set-up throws [SelectorNotFound] or [ContainerNotFound];
    with version anchors it throws [NoStableVersionFound], and then every
    version anchor is a pre-release. *)
Theorem X7_latest_stable_failures (env : Env) (doc : Document) (e : Error) :
  outcome (getLatestStableURL env doc) = Throw e ->
  (version_anchors doc = []
   /\ (e = SelectorNotFound \/ e = ContainerNotFound))
  \/ (version_anchors doc <> []
      /\ e = NoStableVersionFound
      /\ forall y, In y (version_anchors doc) ->
                   prerelease_text (textContentAt doc y)).
Proof.
  intros H.
  destruct (version_anchors doc) as [|z zs] eqn:Hv.
  - left. split; [reflexivity|].
    destruct (getLatestStableURL_no_anchor env doc Hv) as (e' & E & He).
    rewrite E in H. simpl in H. now injection H as <-.
  - right. split; [discriminate|].
    assert (Hne : version_anchors doc <> []) by (rewrite Hv; discriminate).
    destruct (version_anchors_container _ Hne) as [c Hc].
    rewrite (getLatestStableURL_listing env _ _ Hc Hne) in H.
    rewrite outcome_bind, outcome_forEach_debug in H. rewrite Hv in H.
    destruct (find (is_stable doc) (z :: zs)) as [x|] eqn:Hf.
    + rewrite outcome_bind, outcome_console_debug in H. discriminate.
    + rewrite outcome_bind in H.
      assert (Ho : outcome (report_moreUploads doc c) = Ok tt).
      { unfold report_moreUploads.
        now destruct (querySelector doc c sel_last_child_anchor). }
      rewrite Ho in H. simpl in H. injection H as <-.
      split; [reflexivity|]. intros y Hy.
      apply is_prerelease_iff. exact (find_none _ _ Hf y Hy).
Qed.

Lemma X7_witness_without_anchors :
  (version_anchors Pages.listing_without_anchors = []
   /\ (SelectorNotFound = SelectorNotFound
       \/ SelectorNotFound = ContainerNotFound))
  \/ (version_anchors Pages.listing_without_anchors <> []
      /\ SelectorNotFound = NoStableVersionFound
      /\ forall y, In y (version_anchors Pages.listing_without_anchors) ->
                   prerelease_text
                     (textContentAt Pages.listing_without_anchors y)).
Proof.
  apply (X7_latest_stable_failures (Pages.env_of true Pages.html_response)
           Pages.listing_without_anchors SelectorNotFound).
  vm_compute. reflexivity.
Defined.

(** *** The debug switch *)


Lemma quiet_bind {A B : Type} (m m' : M A) (k k' : A -> M B) :
  quiet_of m m' -> (forall a, quiet_of (k a) (k' a)) ->
  quiet_of (bind m k) (bind m' k').
Proof.
  unfold quiet_of. intros Hm Hk. rewrite trace_bind, outcome_bind, Hm.
  unfold without_debug. rewrite filter_app.
  destruct m' as [t' [a|e]]; simpl.
  - rewrite (Hk a). now destruct (k' a).
  - now rewrite app_nil_r.
Qed.

Lemma quiet_same {A : Type} (m : M A) :
  (forall e, In e (trace m) -> is_debug e = false) -> quiet_of m m.
Proof.
  unfold quiet_of, without_debug. intros H. destruct m as [t o]. simpl in *.
  f_equal. induction t as [|e t IH]; simpl; [reflexivity|].
  rewrite (H e (or_introl eq_refl)). simpl. f_equal.
  apply IH. intros e' He'. apply H. now right.
Qed.

Lemma quiet_lift {A : Type} (r : result A) : quiet_of (lift r) (lift r).
Proof. apply quiet_same. intros e []. Qed.

Lemma quiet_console_debug (env env' : Env) (line : string) :
  DEBUG_ENABLED env = false ->
  quiet_of (console_debug env line) (console_debug env' line).
Proof.
  intros H. unfold quiet_of, console_debug. rewrite H.
  now destruct (DEBUG_ENABLED env').
Qed.

Lemma quiet_forEach_debug (env env' : Env) (doc : Document) (l : list Ref) :
  DEBUG_ENABLED env = false ->
  forall i, quiet_of (forEachM (debug_anchor env doc) i l)
                     (forEachM (debug_anchor env' doc) i l).
Proof.
  intros H. induction l as [|x l IH]; intros i; simpl.
  - reflexivity.
  - apply quiet_bind; [|intros _; apply IH].
    unfold debug_anchor.
    repeat (apply quiet_bind; [now apply quiet_console_debug | intros _]).
    now apply quiet_console_debug.
Qed.

(** X8. The debug switch changes nothing but the debug lines: with
    debugging disabled [getLatestStableURL] has the outcome it has with any
    other setting, and its console output is the output of that setting
    with the [console.debug] lines taken out. *)
Theorem X8_debug_switch_only_silences (env env' : Env) (doc : Document) :
  DEBUG_ENABLED env = false ->
  getLatestStableURL env doc
  = (without_debug (trace (getLatestStableURL env' doc)),
     outcome (getLatestStableURL env' doc)).
Proof.
  intros H. change (quiet_of (getLatestStableURL env doc)
                             (getLatestStableURL env' doc)).
  unfold getLatestStableURL.
  apply quiet_bind; [apply quiet_lift | intros containers].
  apply quiet_bind; [apply quiet_lift | intros versionContainer].
  apply quiet_bind; [apply quiet_lift | intros versions].
  apply quiet_bind; [now apply quiet_forEach_debug | intros _].
  destruct (find (is_stable doc) versions) as [a|].
  - apply quiet_bind; [now apply quiet_console_debug | intros _].
    apply quiet_same. intros e [].
  - apply quiet_same. unfold report_moreUploads.
    destruct (querySelector doc versionContainer sel_last_child_anchor);
      simpl; intros e He;
      [destruct He as [<-|[]]; reflexivity | contradiction].
Qed.

Lemma X8_witness_only_prereleases :
  getLatestStableURL (Pages.env_of false Pages.html_response)
                     Pages.listing_only_prerelease
  = (without_debug
       (trace (getLatestStableURL (Pages.env_of true Pages.html_response)
                                  Pages.listing_only_prerelease)),
     outcome (getLatestStableURL (Pages.env_of true Pages.html_response)
                                 Pages.listing_only_prerelease)).
Proof.
  apply (X8_debug_switch_only_silences
           (Pages.env_of false Pages.html_response)
           (Pages.env_of true Pages.html_response)
           Pages.listing_only_prerelease).
  reflexivity.
Defined.

(* ================================================================== *)
(** ** Further properties: the download-link chain *)
(* ================================================================== *)

(** X9. Whatever [getNonBundleURL] returns is the href of an anchor inside
    the last child of the download container whose parent has more than
    one child element and at least one badge, none of the badges reading
    "bundle" in any letter case, and every structural candidate before it
    carries a bundle badge. *)
Theorem X9_non_bundle_answer (doc : Document) (arch url : string) :
  getNonBundleURL doc arch = Ok url ->
  exists before x after,
    structural_candidates doc = (before ++ x :: after)%list
    /\ url = hrefAt doc x
    /\ In x (download_anchors doc)
    /\ has_sibling doc x = true
    /\ badges doc x <> []
    /\ ~ bundle_badged doc x
    /\ forall y, In y before -> bundle_badged doc y.
Proof.
  intros H.
  destruct (getNonBundleURL_inv _ _ _ H)
    as (before & x & after & E & Hu & Hb & Hn & Hall).
  exists before, x, after. repeat split; auto.
  - assert (Hin : In x (structural_candidates doc))
      by (rewrite E; apply in_or_app; right; now left).
    unfold structural_candidates in Hin.
    now apply filter_In in Hin as [Hin _].
  - assert (Hin : In x (structural_candidates doc))
      by (rewrite E; apply in_or_app; right; now left).
    unfold structural_candidates in Hin.
    now apply filter_In in Hin as [_ Hin].
Qed.

Lemma X9_witness_bundle_then_apk :
  exists before x after,
    structural_candidates Pages.variants_bundle_then_apk
    = (before ++ x :: after)%list
    /\ "/apk" = hrefAt Pages.variants_bundle_then_apk x
    /\ In x (download_anchors Pages.variants_bundle_then_apk)
    /\ has_sibling Pages.variants_bundle_then_apk x = true
    /\ badges Pages.variants_bundle_then_apk x <> []
    /\ ~ bundle_badged Pages.variants_bundle_then_apk x
    /\ forall y, In y before -> bundle_badged Pages.variants_bundle_then_apk y.
Proof.
  apply (X9_non_bundle_answer Pages.variants_bundle_then_apk "x86" "/apk").
  vm_compute. reflexivity.
Defined.

Lemma findM_all_false {A : Type} (f : A -> result bool) (l : list A) :
  (forall y, In y l -> f y = Ok false) -> findM f l = Ok None.
Proof.
  intros H. induction l as [|y l IH]; simpl; [reflexivity|].
  rewrite (H y (or_introl eq_refl)). apply IH.
  intros z Hz. apply H. now right.
Qed.

(** X10. When the last child of the download container has anchors and
    every one that passes the structural filter carries a bundle badge
    (in particular when none passes), [getNonBundleURL] fails with
    [NoNonBundleLink], whatever architecture is asked for. *)
Theorem X10_only_bundles (doc : Document) (arch : string) :
  download_anchors doc <> [] ->
  (forall y, In y (structural_candidates doc) -> bundle_badged doc y) ->
  getNonBundleURL doc arch = Throw NoNonBundleLink.
Proof.
  intros Hne Hall.
  destruct (download_anchors_container _ Hne) as [c Hc].
  unfold structural_candidates, download_anchors in *. rewrite Hc in *.
  unfold getNonBundleURL. unfold downloadContainer in Hc.
  destruct (queryAll doc (body doc) sel_listWidget) as [cs|e]; simpl in Hc;
    [|discriminate].
  simpl. rewrite Hc. simpl.
  rewrite (queryAll_found _ _ _ Hne). simpl.
  rewrite filter_arch_filter.
  rewrite findM_all_false; [reflexivity|].
  intros y Hy. apply is_not_bundle_bundle.
  unfold bundle_badged, badges in *. now apply Hall.
Qed.

Lemma X10_witness_only_bundles :
  getNonBundleURL MorePages.variants_only_bundles "arm64-v8a"
  = Throw NoNonBundleLink.
Proof.
  apply (X10_only_bundles MorePages.variants_only_bundles "arm64-v8a").
  - vm_compute. discriminate.
  - intros y Hy. apply bundle_badged_iff.
    vm_compute in Hy. destruct Hy as [<-|[<-|[]]]; vm_compute; reflexivity.
Defined.

Lemma matches_left_descendant_cons (scope : Ref) (c : Compound)
  (left : list (Combinator * Compound)) (a : Info) (up : list Info) :
  matches_left scope ((Descendant, c) :: left) (a :: up)
  = (matches_compound scope c a && matches_left scope left up)
    || matches_left scope ((Descendant, c) :: left) up.
Proof. reflexivity. Qed.

(** A selector that begins with a descendant step can drop the compound
    in front of it. *)
Lemma matches_descendant_drop (scope : Ref) (c c' : Compound)
  (left : list (Combinator * Compound)) (anc : list Info) :
  matches_left scope ((Descendant, c) :: (Descendant, c') :: left) anc = true ->
  matches_left scope ((Descendant, c') :: left) anc = true.
Proof.
  induction anc as [|a anc IH]; intros H; [discriminate|].
  rewrite matches_left_descendant_cons in H.
  rewrite matches_left_descendant_cons.
  apply orb_true_iff in H as [H|H].
  - apply andb_true_iff in H as [_ H]. rewrite H. apply orb_true_r.
  - rewrite (IH H). apply orb_true_r.
Qed.

(** Every element the selector of [getDownloadPageURL] matches is matched
    by the selector of [getDirectDownloadURL]. *)
Lemma downloadButton_is_card_anchor (l : Located) :
  matches [] sel_downloadButton l = true ->
  matches [] sel_card_anchor l = true.
Proof.
  unfold matches. intros H. apply andb_true_iff in H as [Hs Hl].
  apply andb_true_iff. split.
  - unfold matches_compound in *. simpl in *.
    rewrite !andb_true_r in Hs. apply andb_true_iff in Hs as [Ht _].
    now rewrite Ht.
  - simpl s_left in *.
    now apply matches_descendant_drop, matches_descendant_drop in Hl.
Qed.

Lemma hd_error_sorted_first {A : Type} (R : A -> A -> Prop) (l : list A)
  (m x : A) :
  StronglySorted R l -> hd_error l = Some m -> In x l -> x = m \/ R m x.
Proof.
  intros Hs Hm Hx. destruct l as [|y l]; [discriminate|].
  injection Hm as ->. destruct Hx as [->|Hx]; [now left | right].
  apply StronglySorted_inv in Hs as [_ Hs].
  rewrite Forall_forall in Hs. now apply Hs.
Qed.

(** X11. On every document on which [getDownloadPageURL] finds its button,
    [getDirectDownloadURL] finds a link as well: the button itself or an
    anchor that comes before it in the document.  Neither stage looks at
    the architecture. *)
Theorem X11_download_button_is_a_direct_link (doc : Document)
  (arch url : string) :
  getDownloadPageURL doc arch = Ok url ->
  exists b b',
    documentQuerySelector doc sel_downloadButton = Some b
    /\ url = hrefAt doc b
    /\ documentQuerySelector doc sel_card_anchor = Some b'
    /\ (b' = b \/ doc_before b' b)
    /\ forall arch', getDirectDownloadURL doc arch' = Ok (hrefAt doc b').
Proof.
  unfold getDownloadPageURL, getDirectDownloadURL.
  destruct (documentQuerySelector doc sel_downloadButton) as [b|] eqn:Hb;
    [|discriminate].
  intros [= <-]. unfold documentQuerySelector in *.
  assert (Hin : In b (map (fun l => i_ref (l_self l))
                          (filter (matches [] sel_card_anchor)
                                  (elements doc)))).
  { assert (Hb' : In b (map (fun l => i_ref (l_self l))
                            (filter (matches [] sel_downloadButton)
                                    (elements doc)))).
    { destruct (map _ (filter (matches [] sel_downloadButton) _));
        [discriminate|]. injection Hb as ->. now left. }
    apply in_map_iff in Hb' as (l & <- & Hl).
    apply (in_map (fun l => i_ref (l_self l))).
    apply filter_In in Hl as [Hl Hm]. apply filter_In. split; [exact Hl|].
    now apply downloadButton_is_card_anchor. }
  assert (Hs : StronglySorted doc_before
                 (map (fun l => i_ref (l_self l))
                      (filter (matches [] sel_card_anchor) (elements doc)))).
  { apply (DomFacts.StronglySorted_map_filter doc_before loc_ref).
    apply DomFacts.walk_sorted. }
  destruct (hd_error (map (fun l => i_ref (l_self l))
                          (filter (matches [] sel_card_anchor)
                                  (elements doc)))) as [b'|] eqn:Hb'.
  - exists b, b'. repeat split; auto.
    destruct (hd_error_sorted_first _ _ _ _ Hs Hb' Hin) as [->|H];
      [now left | now right].
  - exfalso.
    destruct (map (fun l => i_ref (l_self l))
                  (filter (matches [] sel_card_anchor) (elements doc)));
      [contradiction | discriminate].
Qed.

Lemma X11_witness_download_page :
  exists b b',
    documentQuerySelector MorePages.download_page sel_downloadButton = Some b
    /\ "/download/key" = hrefAt MorePages.download_page b
    /\ documentQuerySelector MorePages.download_page sel_card_anchor = Some b'
    /\ (b' = b \/ doc_before b' b)
    /\ forall arch',
         getDirectDownloadURL MorePages.download_page arch'
         = Ok (hrefAt MorePages.download_page b').
Proof.
  apply (X11_download_button_is_a_direct_link
           MorePages.download_page "x86" "/download/key").
  vm_compute. reflexivity.
Defined.

(* ================================================================== *)
(** ** Further properties: the downloader and the driver *)
(* ================================================================== *)

Lemma requests_app (t t' : list Event) :
  requests (t ++ t')%list = (requests t ++ requests t')%list.
Proof.
  induction t as [|e t IH]; simpl; [reflexivity|].
  destruct e; simpl; now rewrite ?IH.
Qed.

Lemma in_trace_bind {A B : Type} (m : M A) (k : A -> M B) (e : Event) :
  In e (trace (bind m k)) ->
  In e (trace m) \/ exists a, outcome m = Ok a /\ In e (trace (k a)).
Proof.
  rewrite trace_bind. intros H. apply in_app_or in H as [H|H]; [now left|].
  destruct (outcome m) as [a|err]; [|contradiction].
  right. now exists a.
Qed.

Lemma fs_free_bind {A B : Type} (m : M A) (k : A -> M B) :
  fs_free m -> (forall a, fs_free (k a)) -> fs_free (bind m k).
Proof.
  intros Hm Hk e He. apply in_trace_bind in He as [He|(a & _ & He)].
  - now apply Hm.
  - now apply (Hk a).
Qed.

Lemma step_bind {A B : Type} (n n' : nat) (m : M A) (k : A -> M B) :
  step n m -> (forall a, step n' (k a)) -> step (n + n') (bind m k).
Proof.
  intros [Hf [Hle Heq]] Hk. split.
  - apply fs_free_bind; [exact Hf | intros a; apply Hk].
  - unfold requests_exactly.
    rewrite trace_bind, requests_app, length_app, outcome_bind.
    destruct (outcome m) as [a|err] eqn:Ho.
    + destruct (Hk a) as [_ [Hle' Heq']]. rewrite (Heq a eq_refl). split.
      * lia.
      * intros b Hb. now rewrite (Heq' b Hb).
    + simpl. split; [lia | discriminate].
Qed.

Lemma final_bind {A B : Type} (n n' : nat) (m : M A) (k : A -> M B) :
  step n m -> (forall a, final n' (k a)) -> final (n + n') (bind m k).
Proof.
  intros [Hf [Hle Heq]] Hk. split.
  - unfold requests_exactly.
    rewrite trace_bind, requests_app, length_app, outcome_bind.
    destruct (outcome m) as [a|err] eqn:Ho.
    + destruct (Hk a) as [[Hle' Heq'] _]. rewrite (Heq a eq_refl). split.
      * lia.
      * intros b Hb. now rewrite (Heq' b Hb).
    + simpl. split; [lia | discriminate].
  - intros pre e post E Hfs. rewrite trace_bind in E.
    apply app_eq_app in E as [l [[E1 E2]|[E1 E2]]].
    + destruct l as [|e' l]; simpl in E2.
      * rewrite app_nil_r in E1. subst pre.
        destruct (outcome m) as [a|err] eqn:Ho; [|discriminate].
        destruct (Hk a) as [_ Hfin].
        pose proof (Hfin [] e post (eq_sym E2) Hfs) as H0. simpl in H0.
        rewrite (Heq a eq_refl). lia.
      * injection E2 as <- _. exfalso.
        assert (Hin : In e (trace m))
          by (rewrite E1; apply in_or_app; right; now left).
        rewrite (Hf e Hin) in Hfs. discriminate.
    + subst pre. rewrite requests_app, length_app.
      destruct (outcome m) as [a|err] eqn:Ho.
      * destruct (Hk a) as [_ Hfin].
        now rewrite (Heq a eq_refl), (Hfin l e post E2 Hfs).
      * now destruct l.
Qed.

Lemma step_final {A : Type} (n : nat) (m : M A) : step n m -> final n m.
Proof.
  intros [Hf Hr]. split; [exact Hr|]. intros pre e post E Hfs.
  assert (Hin : In e (trace m))
    by (rewrite E; apply in_or_app; right; now left).
  rewrite (Hf e Hin) in Hfs. discriminate.
Qed.

Lemma step_lift {A : Type} (r : result A) : step 0 (lift r).
Proof.
  split; [intros e [] | split; [simpl; lia | reflexivity]].
Qed.

Lemma step_ret {A : Type} (a : A) : step 0 (ret a).
Proof. apply (step_lift (Ok a)). Qed.

(** A computation that has thrown will issue no further request. *)
Lemma step_throw {A : Type} (n : nat) (e : Error) : step n (@throw A e).
Proof.
  split; [intros x [] | split; [simpl; lia | discriminate]].
Qed.

Lemma final_throw {A : Type} (n : nat) (e : Error) : final n (@throw A e).
Proof. apply step_final, step_throw. Qed.

Lemma step_console_debug (env : Env) (line : string) :
  step 0 (console_debug env line).
Proof.
  unfold console_debug. destruct (DEBUG_ENABLED env).
  - split; [intros e [<-|[]]; reflexivity | split; [simpl; lia | reflexivity]].
  - apply step_ret.
Qed.

Lemma step_console_log (line : string) : step 0 (console_log line).
Proof.
  split; [intros e [<-|[]]; reflexivity | split; [simpl; lia | reflexivity]].
Qed.

Lemma step_console_error (line : string) : step 0 (console_error line).
Proof.
  split; [intros e [<-|[]]; reflexivity | split; [simpl; lia | reflexivity]].
Qed.

Lemma step_request (url : string) : step 1 (emit (HttpGet url)).
Proof.
  split; [intros e [<-|[]]; reflexivity | split; [simpl; lia | reflexivity]].
Qed.

Lemma step_report_moreUploads (doc : Document) (c : Ref) :
  step 0 (report_moreUploads doc c).
Proof.
  unfold report_moreUploads.
  destruct (querySelector doc c sel_last_child_anchor);
    [apply step_console_error | apply step_ret].
Qed.

Lemma step_forEach_debug (env : Env) (doc : Document) (l : list Ref) :
  forall i, step 0 (forEachM (debug_anchor env doc) i l).
Proof.
  induction l as [|x l IH]; intros i; simpl; [apply step_ret|].
  apply (step_bind 0 0); [|intros _; apply IH].
  unfold debug_anchor.
  repeat (apply (step_bind 0 0); [apply step_console_debug | intros _]).
  apply step_console_debug.
Qed.

(** The resolvers only read the document and write to the console. *)
Lemma step_getLatestStableURL (env : Env) (doc : Document) :
  step 0 (getLatestStableURL env doc).
Proof.
  unfold getLatestStableURL.
  apply (step_bind 0 0); [apply step_lift | intros containers].
  apply (step_bind 0 0); [apply step_lift | intros versionContainer].
  apply (step_bind 0 0); [apply step_lift | intros versions].
  apply (step_bind 0 0); [apply step_forEach_debug | intros _].
  destruct (find (is_stable doc) versions).
  - apply (step_bind 0 0); [apply step_console_debug | intros _].
    apply step_ret.
  - apply (step_bind 0 0); [apply step_report_moreUploads | intros _].
    apply step_throw.
Qed.

Lemma step_getCustomVersionURL (version : string) (doc : Document) :
  step 0 (getCustomVersionURL version doc).
Proof.
  unfold getCustomVersionURL.
  apply (step_bind 0 0); [apply step_lift | intros containers].
  apply (step_bind 0 0); [apply step_lift | intros versionContainer].
  apply (step_bind 0 0); [apply step_lift | intros versions].
  destruct (find (text_includes_version doc version) versions).
  - apply step_ret.
  - apply (step_bind 0 0); [apply step_report_moreUploads | intros _].
    apply step_throw.
Qed.

(** One page, one request. *)
Lemma step_getDocumentFromURL (env : Env) (url : string) :
  step 1 (getDocumentFromURL env url).
Proof.
  unfold getDocumentFromURL.
  apply (step_bind 1 0); [apply step_request | intros _].
  apply (step_bind 0 0); [apply step_lift | intros response].
  destruct (JSDOM env (resp_text response)); [apply step_ret | apply step_throw].
Qed.

Lemma step_resolve_stage (env : Env) (arch urlPath : string)
  (dlFunc : Document -> string -> result string) :
  step 1 (resolve_stage env arch urlPath dlFunc).
Proof.
  unfold resolve_stage.
  apply (step_bind 0 1); [apply step_lift | intros url].
  apply (step_bind 1 0); [apply step_getDocumentFromURL | intros document].
  apply step_lift.
Qed.

Lemma step_resolve_chain (env : Env) (arch : string)
  (fs : list (Document -> string -> result string)) :
  forall urlPath, step (List.length fs) (resolve_chain env arch urlPath fs).
Proof.
  induction fs as [|f fs IH]; intros urlPath; simpl; [apply step_ret|].
  apply (step_bind 1 (List.length fs));
    [apply step_resolve_stage | intros urlPath'; apply IH].
Qed.

(** Where a trace that starts with the request and the [mkdir] is cut in
    front of a file system event, the request lies before the cut. *)
Lemma request_before_fs (url : string) (rest : list Event)
  (pre : list Event) (e : Event) (post : list Event) :
  requests rest = [] ->
  (HttpGet url :: Mkdir "apps" true :: rest)%list = (pre ++ e :: post)%list ->
  is_fs e = true ->
  List.length (requests pre) = 1.
Proof.
  intros Hrest E Hfs. destruct pre as [|x pre]; simpl in E.
  - injection E as <- _. discriminate.
  - injection E as <- E. simpl. f_equal.
    assert (Hpre : requests (pre ++ e :: post)%list = []).
    { rewrite <- E. simpl. exact Hrest. }
    rewrite requests_app in Hpre.
    apply app_eq_nil in Hpre as [Hpre _]. now rewrite Hpre.
Qed.

Lemma final_download (env : Env) (name url arch version : string) :
  final 1 (download env name url arch version).
Proof.
  unfold final, requests_exactly. rewrite download_cases.
  destruct (mkdir env "apps") as [[]|e];
    [|simpl; repeat split; auto; try discriminate;
      intros pre x post; now apply request_before_fs].
  destruct (fetch env url) as [response|e];
    [|simpl; repeat split; auto; try discriminate;
      intros pre x post; now apply request_before_fs].
  destruct (resp_body response);
    [|simpl; repeat split; auto; try discriminate;
      intros pre x post; now apply request_before_fs].
  destruct (JsValue.loose_eq _ _); simpl; repeat split; auto;
    try discriminate; intros pre x post; now apply request_before_fs.
Qed.

(** X13. [downloadApp] sends at most five requests, exactly five when it
    succeeds, and every one of the five comes before the first file system
    event: wherever the trace is cut in front of a [mkdir], a write stream
    or a pipe, the five requests (the listing, the three pages of the
    chain and the package itself) lie before the cut. *)
Theorem X13_five_requests (env : Env) (name urlPath arch : string)
  (version : option string) :
  (List.length (requests (trace (downloadApp env name urlPath arch version)))
   <= 5)%nat
  /\ (outcome (downloadApp env name urlPath arch version) = Ok tt ->
      List.length
        (requests (trace (downloadApp env name urlPath arch version))) = 5)
  /\ (forall pre e post,
         trace (downloadApp env name urlPath arch version)
         = (pre ++ e :: post)%list ->
         is_fs e = true ->
         List.length (requests pre) = 5).
Proof.
  assert (H : final 5 (downloadApp env name urlPath arch version)).
  { unfold downloadApp.
    destruct (negb (JsString.truthy name) || negb (JsString.truthy urlPath));
      [apply final_throw|].
    apply (final_bind 0 5); [apply step_lift | intros url].
    apply (final_bind 1 4).
    { destruct (version_given version) as [v|].
      - apply (step_bind 1 0); [apply step_getDocumentFromURL | intros d].
        apply (step_bind 0 0); [apply step_getCustomVersionURL | intros u].
        apply step_ret.
      - apply (step_bind 1 0); [apply step_getDocumentFromURL | intros d].
        apply step_getLatestStableURL. }
    intros resolved.
    apply (final_bind 0 4); [apply step_lift | intros shown].
    apply (final_bind 0 4); [apply step_console_log | intros _].
    apply (final_bind 3 1);
      [apply (step_resolve_chain env arch downloadFunctions) | intros u].
    apply (final_bind 0 1); [apply step_lift | intros shown'].
    apply (final_bind 0 1); [apply step_console_log | intros _].
    apply (final_bind 0 1); [apply step_lift | intros target].
    apply final_download. }
  destruct H as [[Hle Heq] Hfs]. split; [exact Hle|].
  split; [apply Heq | exact Hfs].
Qed.

Lemma writes_only_bind {A B : Type} (P : string -> Prop) (m : M A)
  (k : A -> M B) :
  fs_free m ->
  (forall a, outcome m = Ok a -> writes_only P (k a)) ->
  writes_only P (bind m k).
Proof.
  intros Hf Hk p Hp. apply in_trace_bind in Hp as [Hp|(a & Ho & Hp)].
  - pose proof (Hf _ Hp) as H. discriminate.
  - destruct (Hk a Ho p Hp) as [[b Hb] HP]. split; [|exact HP].
    exists b. now rewrite outcome_bind, Ho.
Qed.

Lemma writes_only_throw {A : Type} (P : string -> Prop) (e : Error) :
  writes_only P (@throw A e).
Proof. intros p []. Qed.

Lemma writes_only_download (env : Env) (name url arch version : string) :
  writes_only (fun p => p = output_path name arch version)
              (download env name url arch version).
Proof.
  intros p. rewrite download_cases.
  destruct (mkdir env "apps") as [[]|e]; [|no_such_event].
  destruct (fetch env url) as [response|e]; [|no_such_event].
  destruct (resp_body response); [|no_such_event].
  destruct (JsValue.loose_eq _ _); [|no_such_event].
  simpl. intros [H|[H|[H|[H|[]]]]]; try discriminate.
  injection H as <-. split; [now exists tt | reflexivity].
Qed.

(** The label the code computes is the label as [label_of] describes
    it. *)
Lemma label_of_version_label (text : string) :
  label_of text (version_label text).
Proof.
  unfold label_of, version_label.
  destruct (JsStringFacts.digits_dots_cases text)
    as [Hnone | (pre & tok & post & E & Hpre & Htok & Hne & Hpost)].
  - right. split; [exact Hnone|].
    now rewrite (JsStringFacts.match_digits_dots_none _ Hnone).
  - left. exists pre, tok, post. repeat split; auto.
    rewrite E.
    rewrite (JsStringFacts.match_digits_dots_spec _ _ _ Hpre Htok Hne Hpost).
    now apply JsStringFacts.or_default_nonempty.
Qed.

(** A page that was obtained was fetched and parsed. *)
Lemma getDocumentFromURL_ok (env : Env) (url : string) (doc : Document) :
  outcome (getDocumentFromURL env url) = Ok doc ->
  exists response,
    fetch env url = Ok response /\ JSDOM env (resp_text response) = Some doc.
Proof.
  unfold getDocumentFromURL.
  cbv beta iota delta [bind emit lift throw ret outcome snd].
  destruct (fetch env url) as [response|e]; [|discriminate].
  destruct (JSDOM env (resp_text response)) as [d|] eqn:Hd; [|discriminate].
  intros [= <-]. now exists response.
Qed.

(** The version [downloadApp] goes on with: the requested one, or the
    label of the latest stable release of the listing. *)
Lemma resolved_version (env : Env) (urlPath url : string)
  (version : option string) (resolved : string * string) :
  new_URL env urlPath baseURL = Ok url ->
  outcome
    (match version_given version with
     | Some v =>
         document <- getDocumentFromURL env url ;;
         urlPath <- getCustomVersionURL v document ;;
         ret (urlPath, v)
     | None =>
         document <- getDocumentFromURL env url ;;
         getLatestStableURL env document
     end) = Ok resolved ->
  match version_given version with
  | Some v => snd resolved = v
  | None => latest_label env urlPath (snd resolved)
  end.
Proof.
  intros Hurl.
  destruct (version_given version) as [v|]; rewrite outcome_bind;
    destruct (outcome (getDocumentFromURL env url)) as [d|e] eqn:Hd;
    try discriminate.
  - rewrite outcome_bind.
    destruct (outcome (getCustomVersionURL v d)) as [u|e]; [|discriminate].
    simpl. now intros [= <-].
  - intros H. destruct resolved as [u l].
    destruct (getDocumentFromURL_ok _ _ _ Hd) as (response & Hf & Hp).
    destruct (getLatestStableURL_answer env d u l H)
      as (before & x & after & Hv & Hb & Hx & _ & Hl & _).
    exists url, response, d, before, x, after. repeat split; auto.
    simpl. rewrite Hl. apply label_of_version_label.
Qed.

(** X14. [downloadApp] opens the output file only in a run that succeeds,
    and the file is [apps/<name>_<arch>_<version>.apk] where the version is
    the requested string as it was written when one was requested, and
    otherwise the label of the latest stable release of the listing: the
    leftmost run of digits and dots in the text of the first version
    anchor that is not a pre-release, or "unknown" when that text has
    neither digit nor dot. *)
Theorem X14_output_file (env : Env) (name urlPath arch : string)
  (version : option string) (p : string) :
  In (CreateWriteStream p)
     (trace (downloadApp env name urlPath arch version)) ->
  outcome (downloadApp env name urlPath arch version) = Ok tt
  /\ exists v,
       p = output_path name arch v
       /\ match version_given version with
          | Some requested => v = requested
          | None => latest_label env urlPath v
          end.
Proof.
  intros Hp.
  assert (H : writes_only
                (fun p => exists v,
                     p = output_path name arch v
                     /\ match version_given version with
                        | Some requested => v = requested
                        | None => latest_label env urlPath v
                        end)
                (downloadApp env name urlPath arch version)).
  { unfold downloadApp.
    destruct (negb (JsString.truthy name) || negb (JsString.truthy urlPath));
      [apply writes_only_throw|].
    apply writes_only_bind; [apply step_lift | intros url Hurl].
    apply writes_only_bind.
    { destruct (version_given version) as [v|].
      - apply (step_bind 1 0); [apply step_getDocumentFromURL | intros d].
        apply (step_bind 0 0); [apply step_getCustomVersionURL | intros u].
        apply step_ret.
      - apply (step_bind 1 0); [apply step_getDocumentFromURL | intros d].
        apply step_getLatestStableURL. }
    intros resolved Hres.
    apply (resolved_version env urlPath url version resolved Hurl) in Hres.
    apply writes_only_bind; [apply step_lift | intros shown _].
    apply writes_only_bind; [apply step_console_log | intros _ _].
    apply writes_only_bind;
      [apply (step_resolve_chain env arch downloadFunctions) | intros u _].
    apply writes_only_bind; [apply step_lift | intros shown' _].
    apply writes_only_bind; [apply step_console_log | intros _ _].
    apply writes_only_bind; [apply step_lift | intros target _].
    intros q Hq.
    destruct (writes_only_download env name target arch (snd resolved) q Hq)
      as [Ho ->].
    split; [exact Ho|]. exists (snd resolved). split; [reflexivity|].
    exact Hres. }
  destruct (H p Hp) as [[[] Ho] HP]. split; [exact Ho | exact HP].
Qed.

Lemma X14_witness_latest_and_requested :
  (outcome (downloadApp (MorePages.site_env false)
                        "app" "/apk/app" "x86" None) = Ok tt
   /\ exists v,
        "apps/app_x86_1.9.5.apk" = output_path "app" "x86" v
        /\ latest_label (MorePages.site_env false) "/apk/app" v)
  /\ (outcome (downloadApp (MorePages.site_env false)
                           "app" "/apk/app" "x86" (Some "1.9")) = Ok tt
      /\ exists v,
           "apps/app_x86_1.9.apk" = output_path "app" "x86" v
           /\ v = "1.9").
Proof.
  split.
  - apply (X14_output_file (MorePages.site_env false)
             "app" "/apk/app" "x86" None "apps/app_x86_1.9.5.apk").
    vm_compute. auto 10.
  - apply (X14_output_file (MorePages.site_env false)
             "app" "/apk/app" "x86" (Some "1.9") "apps/app_x86_1.9.apk").
    vm_compute. auto 10.
Defined.

Lemma length_append (a b : string) :
  String.length (a ++ b) = String.length a + String.length b.
Proof. induction a as [|c a IH]; simpl; [reflexivity | now rewrite IH]. Qed.

Lemma append_cancel_r (s s' t : string) : s ++ t = s' ++ t -> s = s'.
Proof.
  revert s'; induction s as [|c s IH]; intros [|c' s'] H; simpl in H.
  - reflexivity.
  - exfalso. apply (f_equal String.length) in H. simpl in H.
    rewrite length_append in H. lia.
  - exfalso. apply (f_equal String.length) in H. simpl in H.
    rewrite length_append in H. lia.
  - injection H as -> H. now rewrite (IH _ H).
Qed.

(** Two strings without underscore that are followed by an underscore
    end at the same place. *)
Lemma split_at_underscore (s s' t t' : string) :
  no_underscore s = true -> no_underscore s' = true ->
  s ++ String "_" t = s' ++ String "_" t' ->
  s = s' /\ t = t'.
Proof.
  unfold no_underscore, JsString.no_char.
  revert s'; induction s as [|c s IH]; intros [|c' s'] Hs Hs' H;
    simpl in *.
  - injection H as ->. now split.
  - injection H as <- _. discriminate.
  - injection H as -> _. discriminate.
  - injection H as -> H.
    apply andb_true_iff in Hs as [_ Hs].
    apply andb_true_iff in Hs' as [_ Hs'].
    destruct (IH _ Hs Hs' H) as [-> ->]. now split.
Qed.

Lemma output_path_injective (name arch version name' arch' version' : string) :
  no_underscore name = true -> no_underscore arch = true ->
  no_underscore name' = true -> no_underscore arch' = true ->
  output_path name arch version = output_path name' arch' version' ->
  name = name' /\ arch = arch' /\ version = version'.
Proof.
  intros Hn Ha Hn' Ha' H. unfold output_path in H.
  apply (f_equal (fun s => substring 5 (String.length s - 5) s)) in H.
  revert H. cbn [String.length append Nat.sub substring]. intros H.
  rewrite !Nat.sub_0_r in H.
  assert (Hsub : forall s, substring 0 (String.length s) s = s).
  { induction s as [|c s IH]; simpl; [reflexivity | now rewrite IH]. }
  rewrite !Hsub in H.
  destruct (split_at_underscore _ _ _ _ Hn Hn' H) as [-> H1].
  destruct (split_at_underscore _ _ _ _ Ha Ha' H1) as [-> H2].
  now rewrite (append_cancel_r _ _ _ H2).
Qed.

(** X12. Two calls of [download] that open the same file were made for
    the same package name, architecture and version, provided the names
    and architectures contain no underscore.  (With underscores the
    scheme [<name>_<arch>_<version>] is ambiguous: architecture [x86]
    with version [64_1.0] and architecture [x86_64] with version [1.0]
    give one path.) *)
Theorem X12_output_path_identifies_the_download (env env' : Env)
  (name url arch version name' url' arch' version' p : string) :
  no_underscore name = true -> no_underscore arch = true ->
  no_underscore name' = true -> no_underscore arch' = true ->
  In (CreateWriteStream p) (trace (download env name url arch version)) ->
  In (CreateWriteStream p) (trace (download env' name' url' arch' version')) ->
  name = name' /\ arch = arch' /\ version = version'.
Proof.
  intros Hn Ha Hn' Ha' H H'.
  destruct (writes_only_download _ _ _ _ _ _ H) as [_ ->].
  destruct (writes_only_download _ _ _ _ _ _ H') as [_ E].
  now apply output_path_injective.
Qed.

Lemma X12_witness_same_file :
  "app" = "app" /\ "arm64-v8a" = "arm64-v8a" /\ "1.9.5" = "1.9.5".
Proof.
  apply (X12_output_path_identifies_the_download
           (Pages.env_of true Pages.apk_response)
           (Pages.env_of false Pages.apk_response)
           "app" "https://apkmirror.com/a" "arm64-v8a" "1.9.5"
           "app" "https://apkmirror.com/b" "arm64-v8a" "1.9.5"
           "apps/app_arm64-v8a_1.9.5.apk");
    try reflexivity; vm_compute; auto 6.
Defined.

(** The ambiguity of the scheme in the presence of underscores. *)
Lemma output_path_collision :
  output_path "app" "x86" "64_1.0" = output_path "app" "x86_64" "1.0".
Proof. reflexivity. Qed.

Lemma X2_witness_second_header :
  findContainerWithHeading MorePages.listing_second_header [[1; 0]]
                           "All versions"
  = Throw ContainerNotFound.
Proof.
  apply (proj2 (UtilityFacts.X2_findContainerWithHeading_spec
                  MorePages.listing_second_header [[1; 0]] "All versions")
               ContainerNotFound).
  split; [reflexivity|].
  intros y [<-|[]]. apply UtilityFacts.heading_excludes_iff.
  vm_compute. reflexivity.
Defined.

Lemma X13_witness_site :
  List.length
    (requests (trace (downloadApp (MorePages.site_env false)
                                  "app" "/apk/app" "x86" None))) = 5
  /\ List.length
       (requests
          [HttpGet "https://apkmirror.com/apk/app";
           ConsoleLog "Fetched Version URL: https://apkmirror.com/v1";
           HttpGet "https://apkmirror.com/v1";
           HttpGet "https://apkmirror.com/apk";
           HttpGet "https://apkmirror.com/download/key";
           ConsoleLog "APK Download URL: https://apkmirror.com/direct.apk";
           HttpGet "https://apkmirror.com/direct.apk"]) = 5.
Proof.
  split.
  - apply (proj1 (proj2 (X13_five_requests (MorePages.site_env false)
                           "app" "/apk/app" "x86" None))).
    vm_compute. reflexivity.
  - apply (proj2 (proj2 (X13_five_requests (MorePages.site_env false)
                           "app" "/apk/app" "x86" None))
             _ (Mkdir "apps" true)
             [CreateWriteStream "apps/app_x86_1.9.5.apk";
              Pipe "apps/app_x86_1.9.5.apk"]).
    + vm_compute. reflexivity.
    + reflexivity.
Defined.
